(** * express-render: the real-time position server, embedded and verified

    The repository holds two variants of one Express + socket.io server:

    - the simple variant (the first source file, here [Module Simple]), whose
      [update_position] listener keeps the last reported position of every
      user in the process-wide object [dataInMemory];
    - the richer variant ([src/server.ts], here [Module Rich]), whose
      [update_position] listener appends every sample to the Supabase table
      [coordinates] and which adds authentication and trip-history routes.

    Every listener and route handler is translated to a function of a small
    state-and-exception monad [Eff] over the state of the process
    ([World]): the cache, the console, socket.io's set of connected sockets
    and the packets it delivered, the HTTP responses sent and the Supabase
    queries issued.  Answers of the outside world (Supabase, bcrypt,
    jsonwebtoken) are arguments of the handler that consumes them, so every
    theorem quantifies over all of them. *)

From Stdlib Require Import PrimFloat.
From stdpp Require Import gmap strings list.

Open Scope string_scope.
Open Scope list_scope.
Set Warnings "-register-all".

(** ** JavaScript values *)

(** A JavaScript [number] is an IEEE 754 binary64 float.  The handlers only
    copy numbers, they never compute with them. *)
Definition number : Type := float.

(** Plain data: what [console.log] prints, what [res.json] sends, what an
    object of type [Record<string, any>] holds. *)
Inductive Json : Type :=
| JNull
| JBool (b : bool)
| JNum (n : number)
| JStr (s : string)
| JArr (items : list Json)
| JObj (fields : list (string * Json)).

(** An error value: a thrown exception, a rejected promise, or the [error]
    member of a Supabase response.  Only [message] is ever read. *)
Record JsError : Type := { message : string }.

(** How a synchronous piece of code ends. *)
Inductive completion (A : Type) : Type :=
| Normal (a : A)
| Throw (e : JsError).
Arguments Normal {A} a.
Arguments Throw {A} e.

(** How an awaited promise settles. *)
Inductive settled (A : Type) : Type :=
| Fulfilled (a : A)
| Rejected (e : JsError).
Arguments Fulfilled {A} a.
Arguments Rejected {A} e.

(** ** The console *)

Inductive stream : Type := Log | Error.

Inductive LogArg : Type :=
| Val (j : Json)
| Err (e : JsError).

Record ConsoleLine : Type := { level : stream; line : list LogArg }.

(** ** socket.io *)

(** [interface SocketData { userId: string }]: the user id associated with a
    connection.  socket.io creates [socket.data] as an empty object, so the
    member may be absent. *)
Module SocketData.
Record t : Type := { userId : option string }.
End SocketData.

Record Socket : Type := { id : string; data : SocketData.t }.

(** One event sent to a client: its name and its arguments. *)
Record Packet : Type := { event : string; payload : list Json }.

(** ** Express *)

Inductive Body : Type :=
| Text (s : string)
| JsonBody (j : Json).

Record HttpResponse : Type := { status : nat; body : Body }.

(** ** Supabase *)

(** The queries the richer variant issues, one constructor per query
    builder chain of the source. *)
Inductive Query : Type :=
| users_select_id (email : string)
| users_insert (email password first_name last_name : string)
| users_select_all (email : option string)
| trips_summary_select_all
| coordinates_select_lat_lng (trip_id : string)
| coordinates_insert (user_id : number) (trip_id : string) (lat lng : number).

(** What an awaited query resolves to: [{ data, error }]. *)
Record PostgrestResponse (A : Type) : Type :=
  { resp_data : option A; resp_error : option JsError }.
Arguments resp_data {A} _.
Arguments resp_error {A} _.

(** ** The state of the server process *)

(** What a plain object inherits from.  An object literal starts with
    [Object.prototype], which carries the accessor [__proto__]; assigning an
    object to [obj["__proto__"]] runs that accessor's setter and makes the
    assigned object the prototype (the chain still ends in
    [Object.prototype]); assigning [null] leaves the object without a
    prototype, and so without the accessor. *)
Inductive Prototype : Type :=
| ObjectPrototype
| Inherits (from : Json)
| NoPrototype.

Record World : Type := {
  (** [const dataInMemory: Record<string, any> = {}]: the own properties of
      the object, as a finite map from property name to value.  An entry of
      the cache is an own property. *)
  dataInMemory : gmap string Json;
  (** the prototype of the object [dataInMemory] *)
  prototype : Prototype;
  (** lines written by [console.log] and [console.error], oldest first *)
  console : list ConsoleLine;
  (** socket.io: the ids of the sockets that are connected *)
  sockets : gset string;
  (** socket.io: every packet delivered, with the id of the socket it was
      delivered to, oldest first *)
  delivered : list (string * Packet);
  (** Express: the responses sent, oldest first *)
  responses : list HttpResponse;
  (** Supabase: the queries issued, oldest first *)
  queries : list Query;
}.

(** The process right after start-up: [dataInMemory] is [{}], nobody is
    connected, nothing was printed, sent or queried by a handler. *)
Definition boot : World :=
  {| dataInMemory := ∅; prototype := ObjectPrototype; console := []; sockets := ∅;
     delivered := []; responses := []; queries := [] |}.

Definition set_dataInMemory (f : gmap string Json → gmap string Json) (w : World) : World :=
  {| dataInMemory := f (dataInMemory w); prototype := prototype w; console := console w;
     sockets := sockets w; delivered := delivered w; responses := responses w;
     queries := queries w |}.

Definition set_prototype (f : Prototype → Prototype) (w : World) : World :=
  {| dataInMemory := dataInMemory w; prototype := f (prototype w); console := console w;
     sockets := sockets w; delivered := delivered w; responses := responses w;
     queries := queries w |}.

Definition set_console (f : list ConsoleLine → list ConsoleLine) (w : World) : World :=
  {| dataInMemory := dataInMemory w; prototype := prototype w; console := f (console w);
     sockets := sockets w; delivered := delivered w; responses := responses w;
     queries := queries w |}.

Definition set_sockets (f : gset string → gset string) (w : World) : World :=
  {| dataInMemory := dataInMemory w; prototype := prototype w; console := console w;
     sockets := f (sockets w); delivered := delivered w; responses := responses w;
     queries := queries w |}.

Definition set_delivered (f : list (string * Packet) → list (string * Packet)) (w : World) : World :=
  {| dataInMemory := dataInMemory w; prototype := prototype w; console := console w;
     sockets := sockets w; delivered := f (delivered w); responses := responses w;
     queries := queries w |}.

Definition set_responses (f : list HttpResponse → list HttpResponse) (w : World) : World :=
  {| dataInMemory := dataInMemory w; prototype := prototype w; console := console w;
     sockets := sockets w; delivered := delivered w; responses := f (responses w);
     queries := queries w |}.

Definition set_queries (f : list Query → list Query) (w : World) : World :=
  {| dataInMemory := dataInMemory w; prototype := prototype w; console := console w;
     sockets := sockets w; delivered := delivered w; responses := responses w;
     queries := f (queries w) |}.

(** ** The monad of handlers: state passing with exceptions *)

Definition Eff (A : Type) : Type := World → completion A * World.

Definition ret {A} (a : A) : Eff A := λ w, (Normal a, w).

Definition throw {A} (e : JsError) : Eff A := λ w, (Throw e, w).

Definition bind {A B} (m : Eff A) (k : A → Eff B) : Eff B :=
  λ w, match m w with
       | (Normal a, w') => k a w'
       | (Throw e, w') => (Throw e, w')
       end.

(** [try { body } catch (e) { handler e }] *)
Definition try_catch {A} (body : Eff A) (handler : JsError → Eff A) : Eff A :=
  λ w, match body w with
       | (Normal a, w') => (Normal a, w')
       | (Throw e, w') => handler e w'
       end.

(** [Eff] with stdpp's monad notations: [x ← m; k] and [m;; k]. *)
#[global] Instance Eff_ret : MRet Eff := @ret.
#[global] Instance Eff_bind : MBind Eff := λ A B k m, bind m k.

(** The world a handler leaves behind, and how it ended. *)
Definition exec {A} (m : Eff A) (w : World) : World := (m w).2.
Definition outcome {A} (m : Eff A) (w : World) : completion A := (m w).1.

(** [await p] *)
Definition await {A} (p : settled A) : Eff A :=
  match p with
  | Fulfilled a => ret a
  | Rejected e => throw e
  end.

(** A synchronous library call that already ended. *)
Definition call {A} (c : completion A) : Eff A :=
  match c with
  | Normal a => ret a
  | Throw e => throw e
  end.

(** ** Primitives of the libraries *)

Definition console_log (args : list LogArg) : Eff unit :=
  λ w, (Normal tt, set_console (λ c, c ++ [{| level := Log; line := args |}]) w).

Definition console_error (args : list LogArg) : Eff unit :=
  λ w, (Normal tt, set_console (λ c, c ++ [{| level := Error; line := args |}]) w).

(** What the setter of the accessor [__proto__] does with the value it is
    given: an object (or array) becomes the prototype, [null] removes the
    prototype, any other value is ignored. *)
Definition set_proto (value : Json) (current : Prototype) : Prototype :=
  match value with
  | JObj _ | JArr _ => Inherits value
  | JNull => NoPrototype
  | JBool _ | JNum _ | JStr _ => current
  end.

(** Does an assignment to [obj["__proto__"]] find the accessor of
    [Object.prototype]?  The assignment takes the first property of that
    name along the chain: an own one, then one of the object that became
    the prototype, then the accessor; without a prototype there is none. *)
Definition reaches_accessor (own : gmap string Json) (p : Prototype) : bool :=
  match own !! "__proto__", p with
  | Some _, _ => false
  | None, ObjectPrototype => true
  | None, Inherits (JObj fields) => negb (bool_decide ("__proto__" ∈ fields.*1))
  | None, Inherits _ => true
  | None, NoPrototype => false
  end.

(** [dataInMemory[key] = value].  For every key but ["__proto__"] the
    assignment creates or overwrites the own property [key] (what the
    object inherits under that name, if anything, is a writable data
    property).  The key ["__proto__"], when it finds the inherited
    accessor, runs its setter and creates no own property; when it does
    not, it is a key like any other. *)
Definition assign (key : string) (value : Json) : Eff unit :=
  λ w, (Normal tt,
        if bool_decide (key = "__proto__")
           && reaches_accessor (dataInMemory w) (prototype w)
        then set_prototype (set_proto value) w
        else set_dataInMemory (λ m, <[key := value]> m) w).

(** [io.emit(event, ...payload)]: socket.io delivers the packet once to
    each socket connected at the time of the call. *)
Definition io_emit (ev : string) (args : list Json) : Eff unit :=
  λ w, (Normal tt,
        set_delivered
          (λ d, d ++ ((λ sid, (sid, {| event := ev; payload := args |})) <$> elements (sockets w)))
          w).

(** [res.send(text)], [res.json(value)] and [res.status(code).json(value)];
    Express answers with status 200 unless told otherwise. *)
Definition res_send (s : string) : Eff unit :=
  λ w, (Normal tt, set_responses (λ r, r ++ [{| status := 200; body := Text s |}]) w).

Definition res_status_json (code : nat) (j : Json) : Eff unit :=
  λ w, (Normal tt, set_responses (λ r, r ++ [{| status := code; body := JsonBody j |}]) w).

Definition res_json (j : Json) : Eff unit := res_status_json 200 j.

(** [await supabase.from(..)...]: the query is issued, then the promise
    settles the way the outside world decided. *)
Definition supabase {A} (q : Query) (answer : settled (PostgrestResponse A)) :
    Eff (PostgrestResponse A) :=
  λ w, await answer (set_queries (λ qs, qs ++ [q]) w).

(** socket.io's own bookkeeping around the [connection] and [disconnect]
    events: the socket joins, then leaves, the set [io.emit] delivers to. *)
Definition socket_joins (socket : Socket) : Eff unit :=
  λ w, (Normal tt, set_sockets (λ s, {[ id socket ]} ∪ s) w).

Definition socket_leaves (socket : Socket) : Eff unit :=
  λ w, (Normal tt, set_sockets (λ s, s ∖ {[ id socket ]}) w).

(** socket.io calls a listener of a socket only while that socket is
    connected: listeners are attached inside the [connection] callback and
    die with the socket. *)
Definition while_connected (socket : Socket) (listener : Eff unit) : Eff unit :=
  λ w, if bool_decide (id socket ∈ sockets w) then listener w else (Normal tt, w).

(** The packets delivered to one socket, oldest first. *)
Definition inbox (sid : string) (d : list (string * Packet)) : list Packet :=
  (filter (λ p, p.1 = sid) d).*2.

(** * The simple variant *)

Module Simple.

(** [update_position: (data: { userId:string, lat: number; lng: number }) => void] *)
Record PositionData : Type := { userId : string; lat : number; lng : number }.

Definition json_of_data (data : PositionData) : Json :=
  JObj [("userId", JStr (userId data)); ("lat", JNum (lat data)); ("lng", JNum (lng data))].

(** The object literal [{ lat: data.lat, lng: data.lng }]. *)
Definition position_of (data : PositionData) : Json :=
  JObj [("lat", JNum (lat data)); ("lng", JNum (lng data))].

(** [io.on("connection", (socket) => { ... })]: the callback prints a line
    and attaches the two listeners below. *)
Definition connection (socket : Socket) : Eff unit :=
  console_log [Val (JStr ("🔌 Cliente conectado: " +:+ id socket))].

(** [socket.on("update_position", (data) => { ... })].  The key is the
    template string [`${data.userId}`], which is the string itself.  The
    rebroadcast [socket.broadcast.emit("palete_movimentado", dados)] is
    commented out in the source, so nothing is emitted. *)
Definition update_position (socket : Socket) (data : PositionData) : Eff unit :=
  console_log [Val (JStr "Dados do Front: "); Val (json_of_data data)];;
  assign (userId data) (position_of data).

(** [socket.on("disconnect", () => { ... })] *)
Definition disconnect (socket : Socket) : Eff unit :=
  console_log [Val (JStr ("❌ Cliente desconectou: " +:+ id socket))].

(** [app.get("/", ...)] *)
Definition get_root : Eff unit :=
  res_send "🚀 Backend Logística (HTTP + WS) Rodando!".

(** [app.post("/api/admin/resetar", ...)] *)
Definition post_api_admin_resetar : Eff unit :=
  io_emit "erro_sistema" [JStr "Sistema reiniciando, aguarde..."];;
  res_json (JObj [("ok", JBool true)]).

(** [server.listen(PORT, () => { ... })] *)
Definition listening (PORT : string) : Eff unit :=
  console_log [Val (JStr ("✅ Servidor rodando na porta " +:+ PORT))];;
  console_log [Val (JStr "📡 WebSocket pronto para conexões")].

(** What the outside world can do to the running server. *)
Inductive Event : Type :=
| Connection (socket : Socket)
| UpdatePosition (socket : Socket) (data : PositionData)
| Disconnect (socket : Socket)
| GetRoot
| PostApiAdminResetar.

Definition handle (ev : Event) : Eff unit :=
  match ev with
  | Connection socket => socket_joins socket;; connection socket
  | UpdatePosition socket data => while_connected socket (update_position socket data)
  | Disconnect socket =>
      while_connected socket (socket_leaves socket;; disconnect socket)
  | GetRoot => get_root
  | PostApiAdminResetar => post_api_admin_resetar
  end.

Definition step (ev : Event) (w : World) : World := exec (handle ev) w.

Fixpoint run (evs : list Event) (w : World) : World :=
  match evs with
  | [] => w
  | ev :: evs => run evs (step ev w)
  end.

Definition start (PORT : string) : World := exec (listening PORT) boot.

(** Does the run carry a sample of user [u]? *)
Definition carries (u : string) (ev : Event) : bool :=
  match ev with
  | UpdatePosition _ data => bool_decide (userId data = u)
  | _ => false
  end.

(** The coordinate ranges the specification's data model gives a position
    sample: latitude in [-90, 90], longitude in [-180, 180].  The server has
    no counterpart of this test; it only serves to state which samples the
    specification calls valid. *)
Definition in_spec_range (data : PositionData) : bool :=
  (PrimFloat.leb (-90)%float (lat data) && PrimFloat.leb (lat data) 90%float
   && PrimFloat.leb (-180)%float (lng data) && PrimFloat.leb (lng data) 180%float)%bool.

(** Does the event carry a sample of user [u] that the specification calls
    valid? *)
Definition carries_valid (u : string) (ev : Event) : bool :=
  match ev with
  | UpdatePosition _ data => bool_decide (userId data = u) && in_spec_range data
  | _ => false
  end.

End Simple.

(** * The richer variant *)

Module Rich.

(** [update_position: (data: { userId: number; lat: number; lng: number, tripId: string }) => void] *)
Record PositionData : Type :=
  { userId : number; lat : number; lng : number; tripId : string }.

Definition json_of_data (data : PositionData) : Json :=
  JObj [("userId", JNum (userId data)); ("lat", JNum (lat data));
        ("lng", JNum (lng data)); ("tripId", JStr (tripId data))].

(** A row of the table [users]. *)
Record User : Type :=
  { user_id : number; user_email : string; user_password : string;
    user_first_name : string; user_last_name : string }.

(** A row of [coordinates] as [select('lat, lng')] returns it. *)
Record Point : Type := { point_lat : number; point_lng : number }.

(** [!value] is false exactly for a present, non-empty string. *)
Definition truthy (value : option string) : option string :=
  match value with
  | Some "" => None
  | _ => value
  end.

(** Reading a member of [null] throws a [TypeError]. *)
Definition member_of_null {A} (name : string) : Eff A :=
  throw {| message := "Cannot read properties of null (reading '" +:+ name +:+ "')" |}.

(** The claims [jwt.sign] receives, and the [user] object of the response. *)
Definition claims_of (user : User) : Json :=
  JObj [("id", JNum (user_id user)); ("email", JStr (user_email user));
        ("firstName", JStr (user_first_name user)); ("lastName", JStr (user_last_name user))].

(** [io.on("connection", (socket) => { ... })] *)
Definition connection (socket : Socket) : Eff unit :=
  console_log [Val (JStr ("🔌 Cliente conectado: " +:+ id socket))].

(** [socket.on("update_position", async (data) => { ... })]; [answer] is
    how the awaited insert settles.  The listener is run to its end in one
    piece: what it does after the [await] is to print at most one line. *)
Definition update_position (socket : Socket) (data : PositionData)
    (answer : settled (PostgrestResponse unit)) : Eff unit :=
  console_log [Val (JStr "📍 Recebido:"); Val (json_of_data data)];;
  try_catch
    (response ← supabase
       (coordinates_insert (userId data) (tripId data) (lat data) (lng data)) answer;
     match resp_error response with
     | Some error =>
         console_error [Val (JStr "Erro ao salvar coordenada:"); Val (JStr (message error))]
     | None => ret tt
     end)
    (λ err, console_error [Val (JStr "Erro interno ao salvar:"); Err err]).

(** [socket.on("disconnect", () => { ... })] *)
Definition disconnect (socket : Socket) : Eff unit :=
  console_log [Val (JStr ("❌ Cliente desconectou: " +:+ id socket))].

(** [req.body] of [POST /auth/register] and what the libraries answer. *)
Record RegisterBody : Type :=
  { reg_email : option string; reg_password : option string;
    reg_firstName : option string; reg_lastName : option string }.

Record RegisterAnswers : Type :=
  { reg_existing : settled (PostgrestResponse number);
    reg_hash : settled string;
    reg_insert : settled (PostgrestResponse User);
    reg_sign : completion string }.

(** [app.post("/auth/register", ...)] *)
Definition post_auth_register (body : RegisterBody) (ans : RegisterAnswers) : Eff unit :=
  try_catch
    (match truthy (reg_email body), truthy (reg_password body),
           truthy (reg_firstName body), truthy (reg_lastName body) with
     | Some email, Some password, Some firstName, Some lastName =>
         existing ← supabase (users_select_id email) (reg_existing ans);
         match resp_data existing with
         | Some _ => res_status_json 400 (JObj [("error", JStr "E-mail já cadastrado.")])
         | None =>
             hashedPassword ← await (reg_hash ans);
             inserted ← supabase (users_insert email hashedPassword firstName lastName)
                                 (reg_insert ans);
             match resp_error inserted with
             | Some error => throw error
             | None =>
                 match resp_data inserted with
                 | None => member_of_null "id"
                 | Some newUser =>
                     token ← call (reg_sign ans);
                     res_status_json 201
                       (JObj [("message", JStr "Usuário criado com sucesso");
                              ("user", claims_of newUser);
                              ("token", JStr token)])
                 end
             end
         end
     | _, _, _, _ => res_status_json 400 (JObj [("error", JStr "Algo deu errado!")])
     end)
    (λ error,
       console_error [Err error];;
       res_status_json 500
         (JObj [("error", JStr "Erro ao criar conta"); ("details", JStr (message error))])).

(** [req.body] of [POST /auth/login] and what the libraries answer. *)
Record LoginBody : Type :=
  { login_email : option string; login_password : option string }.

Record LoginAnswers : Type :=
  { login_user : settled (PostgrestResponse User);
    login_compare : settled bool;
    login_sign : completion string;
    login_decode : Json }.

(** [app.post("/auth/login", ...)] *)
Definition post_auth_login (body : LoginBody) (ans : LoginAnswers) : Eff unit :=
  try_catch
    (found ← supabase (users_select_all (login_email body)) (login_user ans);
     match resp_error found, resp_data found with
     | None, Some user =>
         isPasswordValid ← await (login_compare ans);
         if isPasswordValid : bool then
           token ← call (login_sign ans);
           res_json (JObj [("message", JStr "Login realizado");
                           ("token", JStr token);
                           ("payload", login_decode ans)])
         else res_status_json 401 (JObj [("error", JStr "Credenciais inválidas")])
     | _, _ => res_status_json 401 (JObj [("error", JStr "Credenciais inválidas")])
     end)
    (λ error,
       console_error [Err error];;
       res_status_json 500 (JObj [("error", JStr "Erro interno do servidor")])).

(** [app.get("/api/trips", ...)] *)
Definition get_api_trips (answer : settled (PostgrestResponse Json)) : Eff unit :=
  try_catch
    (found ← supabase trips_summary_select_all answer;
     match resp_error found with
     | Some error => throw error
     | None => res_json (default JNull (resp_data found))
     end)
    (λ error,
       console_error [Val (JStr "Erro ao buscar viagens:"); Err error];;
       res_status_json 500 (JObj [("error", JStr "Erro ao buscar histórico de viagens")])).

(** [app.get("/api/trips/:tripId", ...)] *)
Definition get_api_trips_tripId (tripId : string)
    (answer : settled (PostgrestResponse (list Point))) : Eff unit :=
  try_catch
    (found ← supabase (coordinates_select_lat_lng tripId) answer;
     match resp_error found with
     | Some error => throw error
     | None =>
         let formattedPath :=
           match resp_data found with
           | Some rows => (λ p, JArr [JNum (point_lng p); JNum (point_lat p)]) <$> rows
           | None => []
           end in
         res_json (JArr formattedPath)
     end)
    (λ error,
       console_error [Val (JStr "Erro ao buscar rota:"); Err error];;
       res_status_json 500 (JObj [("error", JStr "Erro ao carregar rota da viagem")])).

(** [server.listen(PORT, () => { ... })] *)
Definition listening (PORT : string) : Eff unit :=
  console_log [Val (JStr ("✅ Servidor rodando na porta " +:+ PORT))].

(** What the outside world can do to the running server; an event brings
    the answers its handler will be given. *)
Inductive Event : Type :=
| Connection (socket : Socket)
| UpdatePosition (socket : Socket) (data : PositionData)
    (answer : settled (PostgrestResponse unit))
| Disconnect (socket : Socket)
| PostAuthRegister (body : RegisterBody) (ans : RegisterAnswers)
| PostAuthLogin (body : LoginBody) (ans : LoginAnswers)
| GetApiTrips (answer : settled (PostgrestResponse Json))
| GetApiTripsTripId (tripId : string) (answer : settled (PostgrestResponse (list Point))).

Definition handle (ev : Event) : Eff unit :=
  match ev with
  | Connection socket => socket_joins socket;; connection socket
  | UpdatePosition socket data answer =>
      while_connected socket (update_position socket data answer)
  | Disconnect socket =>
      while_connected socket (socket_leaves socket;; disconnect socket)
  | PostAuthRegister body ans => post_auth_register body ans
  | PostAuthLogin body ans => post_auth_login body ans
  | GetApiTrips answer => get_api_trips answer
  | GetApiTripsTripId tripId answer => get_api_trips_tripId tripId answer
  end.

Definition step (ev : Event) (w : World) : World := exec (handle ev) w.

Fixpoint run (evs : list Event) (w : World) : World :=
  match evs with
  | [] => w
  | ev :: evs => run evs (step ev w)
  end.

Definition start (PORT : string) : World := exec (listening PORT) boot.


End Rich.

(** * Sample data

    The connection and the samples of the specification's end-to-end
    scenario, and a sample with latitude 91. *)

Module Scenario.

(** A connection with no associated user id. *)
Definition conn_a : Socket := {| id := "A"; data := {| SocketData.userId := None |} |}.

Definition first : Simple.PositionData :=
  {| Simple.userId := "u1"; Simple.lat := 10%float; Simple.lng := 20%float |}.

Definition second : Simple.PositionData :=
  {| Simple.userId := "u1"; Simple.lat := 11%float; Simple.lng := 21%float |}.

Definition lat91 : Simple.PositionData :=
  {| Simple.userId := "u1"; Simple.lat := 91%float; Simple.lng := 20%float |}.

(** Two samples whose user id is the string ["__proto__"]. *)
Definition proto_first : Simple.PositionData :=
  {| Simple.userId := "__proto__"; Simple.lat := 10%float; Simple.lng := 20%float |}.

Definition proto_second : Simple.PositionData :=
  {| Simple.userId := "__proto__"; Simple.lat := 11%float; Simple.lng := 21%float |}.

Definition rich_first : Rich.PositionData :=
  {| Rich.userId := 1%float; Rich.lat := 10%float; Rich.lng := 20%float; Rich.tripId := "t1" |}.

Definition rich_lat91 : Rich.PositionData :=
  {| Rich.userId := 1%float; Rich.lat := 91%float; Rich.lng := 20%float; Rich.tripId := "t1" |}.

(** The insert succeeded; the insert threw. *)
Definition saved : settled (PostgrestResponse unit) :=
  Fulfilled {| resp_data := None; resp_error := None |}.

Definition unreachable : settled (PostgrestResponse unit) :=
  Rejected {| message := "fetch failed" |}.

End Scenario.

(** * Vocabulary for whole routes and runs *)

Module Traffic.

(** The packet [POST /api/admin/resetar] emits. *)
Definition reset_notice : Packet :=
  {| event := "erro_sistema"; payload := [JStr "Sistema reiniciando, aguarde..."] |}.

(** The events that are HTTP requests. *)
Definition simple_http (ev : Simple.Event) : bool :=
  match ev with
  | Simple.GetRoot | Simple.PostApiAdminResetar => true
  | _ => false
  end.

Definition rich_http (ev : Rich.Event) : bool :=
  match ev with
  | Rich.PostAuthRegister _ _ | Rich.PostAuthLogin _ _
  | Rich.GetApiTrips _ | Rich.GetApiTripsTripId _ _ => true
  | _ => false
  end.

(** The queries that change the database, and the events whose handlers
    contain one. *)
Definition is_write (q : Query) : bool :=
  match q with
  | users_insert _ _ _ _ | coordinates_insert _ _ _ _ => true
  | _ => false
  end.

Definition may_write (ev : Rich.Event) : bool :=
  match ev with
  | Rich.UpdatePosition _ _ _ | Rich.PostAuthRegister _ _ => true
  | _ => false
  end.

(** The insert [update_position] issues for a sample. *)
Definition insert_of (data : Rich.PositionData) : Query :=
  coordinates_insert (Rich.userId data) (Rich.tripId data) (Rich.lat data) (Rich.lng data).

(** The samples one socket sends, each with the way its insert settles. *)
Definition stream_of (socket : Socket)
    (samples : list (Rich.PositionData * settled (PostgrestResponse unit))) : list Rich.Event :=
  (λ s, Rich.UpdatePosition socket s.1 s.2) <$> samples.

(** The samples one socket sends to the simple variant. *)
Definition simple_stream_of (socket : Socket) (samples : list Simple.PositionData) :
    list Simple.Event :=
  Simple.UpdatePosition socket <$> samples.

(** One element of the array [GET /api/trips/:tripId] answers with:
    [[p.lng, p.lat]]. *)
Definition pair_of (p : Rich.Point) : Json :=
  JArr [JNum (Rich.point_lng p); JNum (Rich.point_lat p)].

End Traffic.

(** * Sample accounts *)

Module Accounts.

Definition ana : Rich.User :=
  {| Rich.user_id := 7%float; Rich.user_email := "ana@example.com";
     Rich.user_password := "$2a$10$hash"; Rich.user_first_name := "Ana";
     Rich.user_last_name := "Silva" |}.

Definition form : Rich.RegisterBody :=
  {| Rich.reg_email := Some "ana@example.com"; Rich.reg_password := Some "segredo";
     Rich.reg_firstName := Some "Ana"; Rich.reg_lastName := Some "Silva" |}.

(** The same form with an empty last name. *)
Definition incomplete : Rich.RegisterBody :=
  {| Rich.reg_email := Some "ana@example.com"; Rich.reg_password := Some "segredo";
     Rich.reg_firstName := Some "Ana"; Rich.reg_lastName := Some "" |}.

Definition no_rows {A} : settled (PostgrestResponse A) :=
  Fulfilled {| resp_data := None;
               resp_error := Some {| message := "JSON object requested, multiple (or no) rows returned" |} |}.

Definition row {A} (a : A) : settled (PostgrestResponse A) :=
  Fulfilled {| resp_data := Some a; resp_error := None |}.

(** Everything works: the e-mail is free, the insert returns the new row. *)
Definition fresh : Rich.RegisterAnswers :=
  {| Rich.reg_existing := no_rows; Rich.reg_hash := Fulfilled "$2a$10$hash";
     Rich.reg_insert := row ana; Rich.reg_sign := Normal "header.claims.signature" |}.

(** The e-mail is already registered. *)
Definition taken : Rich.RegisterAnswers :=
  {| Rich.reg_existing := row 7%float; Rich.reg_hash := Fulfilled "$2a$10$hash";
     Rich.reg_insert := row ana; Rich.reg_sign := Normal "header.claims.signature" |}.

(** The insert is refused by the database. *)
Definition refused : Rich.RegisterAnswers :=
  {| Rich.reg_existing := no_rows; Rich.reg_hash := Fulfilled "$2a$10$hash";
     Rich.reg_insert :=
       Fulfilled {| resp_data := None; resp_error := Some {| message := "duplicate key" |} |};
     Rich.reg_sign := Normal "header.claims.signature" |}.

Definition credentials : Rich.LoginBody :=
  {| Rich.login_email := Some "ana@example.com"; Rich.login_password := Some "segredo" |}.

Definition right_password : Rich.LoginAnswers :=
  {| Rich.login_user := row ana; Rich.login_compare := Fulfilled true;
     Rich.login_sign := Normal "header.claims.signature"; Rich.login_decode := JNull |}.

Definition wrong_password : Rich.LoginAnswers :=
  {| Rich.login_user := row ana; Rich.login_compare := Fulfilled false;
     Rich.login_sign := Normal "header.claims.signature"; Rich.login_decode := JNull |}.

End Accounts.

(** * Predicates on handlers *)

(** A handler preserves a component of the world when no run of it,
    however it ends, changes that component. *)
Definition preserves {X A : Type} (part : World → X) (m : Eff A) : Prop :=
  ∀ w, part (m w).2 = part w.

(** A handler answers the HTTP request when it ends normally having sent
    exactly one response, which satisfies [P]. *)
Definition answers {A : Type} (P : HttpResponse → Prop) (m : Eff A) : Prop :=
  ∀ w, ∃ a r, outcome m w = Normal a ∧ responses (exec m w) = responses w ++ [r] ∧ P r.

(** A piece of a handler is about to answer when it either ends normally
    having sent exactly one response, which satisfies [P], or throws having
    sent none. *)
Definition answers_or_throws {A : Type} (P : HttpResponse → Prop) (m : Eff A) : Prop :=
  ∀ w, match outcome m w with
       | Normal _ => ∃ r, responses (exec m w) = responses w ++ [r] ∧ P r
       | Throw _ => responses (exec m w) = responses w
       end.

(** A handler issues only queries that satisfy [Q]. *)
Definition issues {A : Type} (Q : Query → Prop) (m : Eff A) : Prop :=
  ∀ w, ∃ qs, queries (exec m w) = queries w ++ qs ∧ Forall Q qs.

(** * How handlers compose *)

Section Frame.
Context {X : Type} (part : World → X).

Lemma preserves_ret {A} (a : A) : preserves part (mret a).
Proof. intros w. reflexivity. Qed.

Lemma preserves_throw {A} (e : JsError) : preserves part (@throw A e).
Proof. intros w. reflexivity. Qed.

Lemma preserves_await {A} (p : settled A) : preserves part (await p).
Proof. intros w. destruct p; reflexivity. Qed.

Lemma preserves_call {A} (c : completion A) : preserves part (call c).
Proof. intros w. destruct c; reflexivity. Qed.

Lemma preserves_bind {A B} (m : Eff A) (k : A → Eff B) :
  preserves part m → (∀ a, preserves part (k a)) → preserves part (m ≫= k).
Proof.
  intros Hm Hk w. unfold mbind, Eff_bind, bind.
  specialize (Hm w). destruct (m w) as [[a|e] w']; simpl in *.
  - rewrite Hk. exact Hm.
  - exact Hm.
Qed.

Lemma preserves_try_catch {A} (body : Eff A) (handler : JsError → Eff A) :
  preserves part body → (∀ e, preserves part (handler e)) →
  preserves part (try_catch body handler).
Proof.
  intros Hb Hh w. unfold try_catch.
  specialize (Hb w). destruct (body w) as [[a|e] w']; simpl in *.
  - exact Hb.
  - rewrite Hh. exact Hb.
Qed.

Lemma preserves_while_connected (socket : Socket) (listener : Eff unit) :
  preserves part listener → preserves part (while_connected socket listener).
Proof.
  intros Hl w. unfold while_connected. case_bool_decide; [apply Hl | reflexivity].
Qed.

End Frame.

(** Splits a handler along its binds, handlers and case distinctions, and
    closes the leaves, which are library primitives, by computation. *)
Ltac frame :=
  repeat first
    [ apply preserves_bind; [| intros ? ]
    | apply preserves_try_catch; [| intros ? ]
    | apply preserves_while_connected
    | apply preserves_ret
    | apply preserves_throw
    | apply preserves_await
    | apply preserves_call
    | solve [ intros ?; reflexivity ]
    | case_match ].

Lemma supabase_preserves {X A} (part : World → X) (q : Query)
    (answer : settled (PostgrestResponse A)) :
  (∀ f w, part (set_queries f w) = part w) → preserves part (supabase q answer).
Proof. intros Hq w. unfold supabase. destruct answer; simpl; apply Hq. Qed.

Lemma assign_preserves {X} (part : World → X) (key : string) (value : Json) :
  (∀ f w, part (set_dataInMemory f w) = part w) →
  (∀ f w, part (set_prototype f w) = part w) →
  preserves part (assign key value).
Proof.
  intros Hown Hproto w. unfold assign. simpl.
  destruct (_ && _); [apply Hproto | apply Hown].
Qed.

(** ** The richer variant never touches the cache *)

Lemma rich_handle_preserves_dataInMemory (ev : Rich.Event) :
  preserves dataInMemory (Rich.handle ev).
Proof.
  destruct ev; simpl;
    unfold Rich.update_position, Rich.post_auth_register, Rich.post_auth_login,
      Rich.get_api_trips, Rich.get_api_trips_tripId, Rich.connection, Rich.disconnect,
      Rich.member_of_null;
    frame; try (apply supabase_preserves; reflexivity).
Qed.

Lemma rich_run_preserves_dataInMemory (evs : list Rich.Event) (w : World) :
  dataInMemory (Rich.run evs w) = dataInMemory w.
Proof.
  revert w. induction evs as [|ev evs IH]; intros w; simpl; [reflexivity|].
  rewrite IH. apply rich_handle_preserves_dataInMemory.
Qed.

(** ** The simple variant's listener, computed *)

Lemma simple_update_position_run (socket : Socket) (data : Simple.PositionData) (w : World) :
  Simple.update_position socket data w =
  assign (Simple.userId data) (Simple.position_of data)
    (set_console
       (λ c, c ++ [{| level := Log;
                      line := [Val (JStr "Dados do Front: "); Val (Simple.json_of_data data)] |}])
       w).
Proof. reflexivity. Qed.

(** The listener changes the cache object and the console, nothing else. *)
Lemma simple_update_position_preserves {X} (part : World → X)
    (socket : Socket) (data : Simple.PositionData) :
  (∀ f w, part (set_dataInMemory f w) = part w) →
  (∀ f w, part (set_prototype f w) = part w) →
  (∀ f w, part (set_console f w) = part w) →
  preserves part (Simple.update_position socket data).
Proof.
  intros Hown Hproto Hconsole w. rewrite simple_update_position_run.
  rewrite (assign_preserves part _ _ Hown Hproto). apply Hconsole.
Qed.

(** A sample of any user id but ["__proto__"] writes the own property of
    that name and leaves the prototype alone. *)
Lemma simple_update_position_cache (socket : Socket) (data : Simple.PositionData) (w : World) :
  Simple.userId data ≠ "__proto__" →
  dataInMemory (exec (Simple.update_position socket data) w) =
    <[Simple.userId data := Simple.position_of data]> (dataInMemory w) ∧
  prototype (exec (Simple.update_position socket data) w) = prototype w.
Proof.
  intros Hkey. unfold exec. rewrite simple_update_position_run. unfold assign. simpl.
  rewrite bool_decide_eq_false_2 by exact Hkey. split; reflexivity.
Qed.

(** A sample of the user id ["__proto__"], where the name finds the
    inherited accessor, writes no own property and replaces the
    prototype. *)
Lemma simple_update_position_proto (socket : Socket) (data : Simple.PositionData) (w : World) :
  Simple.userId data = "__proto__" →
  reaches_accessor (dataInMemory w) (prototype w) = true →
  dataInMemory (exec (Simple.update_position socket data) w) = dataInMemory w ∧
  prototype (exec (Simple.update_position socket data) w) = Inherits (Simple.position_of data).
Proof.
  intros Hkey Hreach. unfold exec. rewrite simple_update_position_run. unfold assign. simpl.
  rewrite bool_decide_eq_true_2 by exact Hkey. rewrite Hreach. split; reflexivity.
Qed.

(** Whatever the user id of the sample, the own properties of other names
    stay as they are. *)
Lemma simple_update_position_other (socket : Socket) (data : Simple.PositionData)
    (w : World) (v : string) :
  v ≠ Simple.userId data →
  dataInMemory (exec (Simple.update_position socket data) w) !! v = dataInMemory w !! v.
Proof.
  intros Hv. unfold exec. rewrite simple_update_position_run. unfold assign. simpl.
  destruct (_ && _); simpl; [reflexivity | by apply lookup_insert_ne].
Qed.

(** Only a sample of user [u] can change the entry of [u]. *)
Lemma simple_step_other_user (u : string) (ev : Simple.Event) (w : World) :
  Simple.carries u ev = false →
  dataInMemory (Simple.step ev w) !! u = dataInMemory w !! u.
Proof.
  intros Hc. destruct ev as [socket|socket data|socket| |]; try reflexivity.
  - unfold Simple.step, Simple.handle. unfold exec at 1. unfold while_connected.
    destruct (bool_decide _); [|reflexivity].
    simpl in Hc. apply bool_decide_eq_false in Hc.
    apply (simple_update_position_other socket data w u). congruence.
  - unfold Simple.step, exec, Simple.handle, while_connected.
    destruct (bool_decide _); reflexivity.
Qed.

Lemma simple_run_other_user (u : string) (evs : list Simple.Event) (w : World) :
  forallb (λ ev, negb (Simple.carries u ev)) evs = true →
  dataInMemory (Simple.run evs w) !! u = dataInMemory w !! u.
Proof.
  revert w. induction evs as [|ev evs IH]; intros w Hevs; simpl in *; [reflexivity|].
  apply andb_true_iff in Hevs as [Hev Hevs].
  rewrite IH by exact Hevs.
  apply simple_step_other_user. by apply negb_true_iff.
Qed.

(** Only a sample of the user id ["__proto__"] can change the prototype. *)
Lemma simple_step_prototype (ev : Simple.Event) (w : World) :
  Simple.carries "__proto__" ev = false →
  prototype (Simple.step ev w) = prototype w.
Proof.
  intros Hc. destruct ev as [socket|socket data|socket| |]; try reflexivity.
  - unfold Simple.step, Simple.handle. unfold exec at 1. unfold while_connected.
    destruct (bool_decide _); [|reflexivity].
    simpl in Hc. apply bool_decide_eq_false in Hc.
    apply (simple_update_position_cache socket data w Hc).
  - unfold Simple.step, exec, Simple.handle, while_connected.
    destruct (bool_decide _); reflexivity.
Qed.

Lemma simple_run_prototype (evs : list Simple.Event) (w : World) :
  forallb (λ ev, negb (Simple.carries "__proto__" ev)) evs = true →
  prototype (Simple.run evs w) = prototype w.
Proof.
  revert w. induction evs as [|ev evs IH]; intros w Hevs; simpl in *; [reflexivity|].
  apply andb_true_iff in Hevs as [Hev Hevs].
  rewrite IH by exact Hevs.
  apply simple_step_prototype. by apply negb_true_iff.
Qed.

(** ** Who receives a broadcast *)

Lemma inbox_app (sid : string) (d1 d2 : list (string * Packet)) :
  inbox sid (d1 ++ d2) = inbox sid d1 ++ inbox sid d2.
Proof. unfold inbox. by rewrite filter_app, fmap_app. Qed.

Lemma inbox_broadcast (sid : string) (p : Packet) (recipients : list string) :
  NoDup recipients →
  inbox sid ((λ r, (r, p)) <$> recipients) =
  if bool_decide (sid ∈ recipients) then [p] else [].
Proof.
  induction 1 as [|r recipients Hr Hnd IH]; [reflexivity|].
  unfold inbox in *. rewrite fmap_cons, filter_cons. simpl.
  destruct (decide (r = sid)) as [->|Hne].
  - rewrite fmap_cons, IH. simpl.
    rewrite (bool_decide_eq_false_2 _ Hr), bool_decide_eq_true_2 by left. reflexivity.
  - rewrite IH. apply (f_equal (λ b : bool, if b then [p] else [])).
    apply bool_decide_ext. rewrite elem_of_cons. intuition congruence.
Qed.

Lemma inbox_io_emit (sid ev : string) (args : list Json) (w : World) :
  inbox sid (delivered (exec (io_emit ev args) w)) =
  inbox sid (delivered w) ++
  if bool_decide (sid ∈ sockets w) then [{| event := ev; payload := args |}] else [].
Proof.
  unfold exec, io_emit. simpl. rewrite inbox_app. f_equal.
  rewrite inbox_broadcast by apply NoDup_elements.
  apply (f_equal (λ b : bool, if b then [_] else [])).
  apply bool_decide_ext, elem_of_elements.
Qed.

(** * The properties of the specification *)

(** C1 (last arrival wins) is not what the code does for the user id
    ["__proto__"].  Two samples of that user, both within the
    specification's coordinate ranges, arrive one after the other on a
    connected socket.  Neither assignment creates an own property: after
    both, the cache has no entry for the user, it is as empty as at
    start-up, and the second sample's [{ lat, lng }] has become the
    prototype of the cache object instead. *)
Theorem proto_samples_leave_no_entry :
  Simple.in_spec_range Scenario.proto_first = true ∧
  Simple.in_spec_range Scenario.proto_second = true ∧
  Simple.userId Scenario.proto_first = Simple.userId Scenario.proto_second ∧
  let w := Simple.run [Simple.Connection Scenario.conn_a;
                       Simple.UpdatePosition Scenario.conn_a Scenario.proto_first;
                       Simple.UpdatePosition Scenario.conn_a Scenario.proto_second]
             (Simple.start "3000") in
  dataInMemory w !! Simple.userId Scenario.proto_second = None ∧
  dataInMemory w = ∅ ∧
  prototype w = Inherits (JObj [("lat", JNum 11%float); ("lng", JNum 21%float)]).
Proof. repeat split. Qed.

(** C9 (frame of an ingest) is not what the code does for the user id
    ["__proto__"].  With one entry in the cache, a sample of that user
    arrives on a connected socket.  The listener writes no entry keyed by
    that user id, the own properties are what they were, but the prototype
    of the cache object, which was [Object.prototype], is now the sample's
    [{ lat, lng }]: the names [lat] and [lng], of which no sample ever
    arrived, are inherited from it by the cache. *)
Theorem proto_sample_replaces_prototype :
  let w := Simple.run [Simple.Connection Scenario.conn_a;
                       Simple.UpdatePosition Scenario.conn_a Scenario.first]
             (Simple.start "3000") in
  let w' := Simple.step (Simple.UpdatePosition Scenario.conn_a Scenario.proto_second) w in
  "lat" ≠ Simple.userId Scenario.proto_second ∧
  dataInMemory w !! "lat" = None ∧
  dataInMemory w' = dataInMemory w ∧
  prototype w = ObjectPrototype ∧
  prototype w' = Inherits (JObj [("lat", JNum 11%float); ("lng", JNum 21%float)]).
Proof. split; [discriminate|]. repeat split. Qed.

(** C8 (the richer variant keeps no cache).  In the richer variant no
    handler writes [dataInMemory]: every event leaves it as it was, the
    [update_position] listener issues one insert into [coordinates] and
    nothing else, and after any sequence of events from start-up the cache
    is empty, so it has no entry for any user id. *)
Theorem rich_cache_stays_empty (PORT : string) (evs : list Rich.Event) :
  (∀ ev w, dataInMemory (Rich.step ev w) = dataInMemory w) ∧
  (∀ socket data answer w,
     dataInMemory (exec (Rich.update_position socket data answer) w) = dataInMemory w ∧
     queries (exec (Rich.update_position socket data answer) w) =
     queries w ++ [coordinates_insert (Rich.userId data) (Rich.tripId data)
                     (Rich.lat data) (Rich.lng data)]) ∧
  dataInMemory (Rich.run evs (Rich.start PORT)) = ∅ ∧
  (∀ u, dataInMemory (Rich.run evs (Rich.start PORT)) !! u = None).
Proof.
  assert (dataInMemory (Rich.run evs (Rich.start PORT)) = ∅) as Hempty
    by (rewrite rich_run_preserves_dataInMemory; reflexivity).
  split; [|split; [|split]].
  - intros ev w. apply rich_handle_preserves_dataInMemory.
  - intros socket data [[d [e|]]|e] w; split; reflexivity.
  - exact Hempty.
  - intros u. rewrite Hempty. apply lookup_empty.
Qed.

(** C7 (system reset).  [POST /api/admin/resetar] ends normally; it adds
    exactly one [erro_sistema] packet to the inbox of every socket that is
    connected and nothing to the inbox of any other socket, so a client
    whose [disconnect] was handled before the request receives none; and it
    answers the HTTP caller with status 200 and [{ ok: true }]. *)
Theorem reset_notifies_connected_clients (w : World) :
  let notice :=
    {| event := "erro_sistema"; payload := [JStr "Sistema reiniciando, aguarde..."] |} in
  outcome Simple.post_api_admin_resetar w = Normal tt ∧
  (∀ sid,
     inbox sid (delivered (exec Simple.post_api_admin_resetar w)) =
     inbox sid (delivered w) ++ if bool_decide (sid ∈ sockets w) then [notice] else []) ∧
  (∀ socket,
     inbox (id socket)
       (delivered (exec Simple.post_api_admin_resetar
                     (Simple.step (Simple.Disconnect socket) w))) =
     inbox (id socket) (delivered w)) ∧
  responses (exec Simple.post_api_admin_resetar w) =
  responses w ++ [{| status := 200; body := JsonBody (JObj [("ok", JBool true)]) |}].
Proof.
  intros notice.
  assert (∀ w sid,
     inbox sid (delivered (exec Simple.post_api_admin_resetar w)) =
     inbox sid (delivered w) ++ if bool_decide (sid ∈ sockets w) then [notice] else [])
    as Hinbox by (intros w0 sid; apply (inbox_io_emit sid "erro_sistema" _ w0)).
  split; [reflexivity|]. split; [apply Hinbox|]. split; [|reflexivity].
  intros socket. rewrite Hinbox.
  unfold Simple.step, exec, Simple.handle, while_connected.
  case_bool_decide as Hin; simpl.
  - rewrite bool_decide_eq_false_2; [apply app_nil_r|].
    rewrite elem_of_difference, elem_of_singleton. intros [_ Hne]. by apply Hne.
  - rewrite bool_decide_eq_false_2 by exact Hin. apply app_nil_r.
Qed.

(** C6 (no rebroadcast).  Neither variant's [update_position] listener
    emits anything: the list of delivered packets, to whatever socket, is
    the same after the listener as before, and so it is after the whole
    [update_position] event; in particular no [palete_movimentado] packet
    is sent. *)
Theorem update_position_emits_nothing (w : World) (socket : Socket)
    (data : Simple.PositionData) (rdata : Rich.PositionData)
    (answer : settled (PostgrestResponse unit)) :
  delivered (exec (Simple.update_position socket data) w) = delivered w ∧
  delivered (exec (Rich.update_position socket rdata answer) w) = delivered w ∧
  delivered (Simple.step (Simple.UpdatePosition socket data) w) = delivered w ∧
  delivered (Rich.step (Rich.UpdatePosition socket rdata answer) w) = delivered w.
Proof.
  assert (preserves delivered (Simple.update_position socket data)) as Hs
    by (apply (simple_update_position_preserves delivered); reflexivity).
  assert (preserves delivered (Rich.update_position socket rdata answer)) as Hr
    by (intros w0; destruct answer as [[d [e|]]|e]; reflexivity).
  split; [apply Hs|]. split; [apply Hr|]. split.
  - apply (preserves_while_connected delivered socket _ Hs w).
  - apply (preserves_while_connected delivered socket _ Hr w).
Qed.

(** C10 (the richer listener never throws).  Whatever the sample and
    however the insert settles, the richer variant's [update_position]
    listener ends normally, and so does the event that socket.io
    dispatches to it.  A fulfilled insert with an [error] member is
    reported on [console.error] with the error's message, a rejected one is
    caught and reported on [console.error] with the error itself, and a
    clean insert prints nothing more than the receipt line. *)
Theorem rich_update_position_never_throws (w : World) (socket : Socket)
    (data : Rich.PositionData) (answer : settled (PostgrestResponse unit)) :
  outcome (Rich.update_position socket data answer) w = Normal tt ∧
  outcome (Rich.handle (Rich.UpdatePosition socket data answer)) w = Normal tt ∧
  console (exec (Rich.update_position socket data answer) w) =
  console w
  ++ [{| level := Log; line := [Val (JStr "📍 Recebido:"); Val (Rich.json_of_data data)] |}]
  ++ match answer with
     | Fulfilled {| resp_error := Some error |} =>
         [{| level := Error;
             line := [Val (JStr "Erro ao salvar coordenada:"); Val (JStr (message error))] |}]
     | Fulfilled {| resp_error := None |} => []
     | Rejected err =>
         [{| level := Error; line := [Val (JStr "Erro interno ao salvar:"); Err err] |}]
     end.
Proof.
  assert (outcome (Rich.update_position socket data answer) w = Normal tt) as Hends
    by (destruct answer as [[d [e|]]|e]; reflexivity).
  split; [exact Hends|]. split.
  - unfold outcome in *. simpl. unfold while_connected.
    destruct (bool_decide _); [exact Hends | reflexivity].
  - destruct answer as [[d [e|]]|e]; unfold exec; simpl;
      by rewrite <- ?app_assoc, ?app_nil_r.
Qed.



(** C2, as stated, fails: on a connection with no associated user id the
    simple variant stores the sample in the cache and the richer variant
    inserts it into [coordinates]; both listeners return nothing at all. *)
Lemma unauthenticated_sample_is_ingested :
  SocketData.userId (data Scenario.conn_a) = None ∧
  (let w := Simple.run [Simple.Connection Scenario.conn_a] (Simple.start "3000") in
   let w' := Simple.step (Simple.UpdatePosition Scenario.conn_a Scenario.first) w in
   dataInMemory w = ∅ ∧
   dataInMemory w' = {[ "u1" := JObj [("lat", JNum 10%float); ("lng", JNum 20%float)] ]} ∧
   dataInMemory w' ≠ dataInMemory w) ∧
  (let w := Rich.run [Rich.Connection Scenario.conn_a] (Rich.start "3000") in
   let w' := Rich.step (Rich.UpdatePosition Scenario.conn_a Scenario.rich_first
                          Scenario.saved) w in
   queries w = [] ∧
   queries w' = [coordinates_insert 1%float "t1" 10%float 20%float]).
Proof.
  split; [reflexivity|]. split.
  - split; [reflexivity|]. split; [reflexivity|].
    intros Heq. apply (f_equal (λ m : gmap string Json, m !! "u1")) in Heq.
    vm_compute in Heq. discriminate Heq.
  - split; reflexivity.
Qed.

(** C2, amended.  No listener reads the user id associated with the
    connection.  For a sample arriving on a connection that has none, and
    whose own user id is not ["__proto__"], the simple variant's listener
    ends normally, sets the cache entry of the sample's user id to the
    sample's coordinates, leaves the prototype of the cache object alone
    and calls no sink; the richer variant's listener ends normally, leaves
    the cache as it was and issues exactly one insert of the sample into
    [coordinates]; and each does exactly what it does on any other
    connection.  Neither returns a value, throws, or sends a packet to any
    client. *)
Theorem update_position_checks_no_user (w : World) (socket : Socket)
    (sample : Simple.PositionData) (rsample : Rich.PositionData)
    (answer : settled (PostgrestResponse unit)) :
  SocketData.userId (data socket) = None →
  Simple.userId sample ≠ "__proto__" →
  (outcome (Simple.update_position socket sample) w = Normal tt ∧
   dataInMemory (exec (Simple.update_position socket sample) w) =
     <[Simple.userId sample := Simple.position_of sample]> (dataInMemory w) ∧
   prototype (exec (Simple.update_position socket sample) w) = prototype w ∧
   queries (exec (Simple.update_position socket sample) w) = queries w ∧
   delivered (exec (Simple.update_position socket sample) w) = delivered w) ∧
  (outcome (Rich.update_position socket rsample answer) w = Normal tt ∧
   dataInMemory (exec (Rich.update_position socket rsample answer) w) = dataInMemory w ∧
   prototype (exec (Rich.update_position socket rsample answer) w) = prototype w ∧
   queries (exec (Rich.update_position socket rsample answer) w) =
     queries w ++ [coordinates_insert (Rich.userId rsample) (Rich.tripId rsample)
                     (Rich.lat rsample) (Rich.lng rsample)] ∧
   delivered (exec (Rich.update_position socket rsample answer) w) = delivered w) ∧
  (∀ other,
     Simple.update_position other sample w = Simple.update_position socket sample w ∧
     Rich.update_position other rsample answer w = Rich.update_position socket rsample answer w).
Proof.
  intros _ Hkey. split; [|split].
  - destruct (simple_update_position_cache socket sample w Hkey) as [Hown Hproto].
    split; [reflexivity|]. split; [exact Hown|]. split; [exact Hproto|].
    split; [apply (simple_update_position_preserves queries)
           | apply (simple_update_position_preserves delivered)]; reflexivity.
  - destruct answer as [[d [e|]]|e]; repeat split.
  - intros other. split; reflexivity.
Qed.

Lemma update_position_checks_no_user_witness :
  SocketData.userId (data Scenario.conn_a) = None ∧
  Simple.userId Scenario.first ≠ "__proto__" ∧
  dataInMemory (exec (Simple.update_position Scenario.conn_a Scenario.first) boot) =
    <["u1" := JObj [("lat", JNum 10%float); ("lng", JNum 20%float)]]> ∅ ∧
  queries (exec (Rich.update_position Scenario.conn_a Scenario.rich_first Scenario.saved) boot) =
    [coordinates_insert 1%float "t1" 10%float 20%float].
Proof.
  split; [reflexivity|].
  assert (Simple.userId Scenario.first ≠ "__proto__") as Hkey by discriminate.
  split; [exact Hkey|].
  pose proof (update_position_checks_no_user boot Scenario.conn_a Scenario.first
                Scenario.rich_first Scenario.saved eq_refl Hkey)
    as ((_ & Hcache & _) & (_ & _ & _ & Hqueries & _) & _).
  split; [exact Hcache | exact Hqueries].
Defined.

(** C3, as stated, fails: the simple variant stores a sample with latitude
    91, replacing the entry the user had. *)
Lemma latitude_91_overwrites_cache :
  Simple.lat Scenario.lat91 = 91%float ∧
  Simple.in_spec_range Scenario.lat91 = false ∧
  let w := Simple.run [Simple.Connection Scenario.conn_a;
                       Simple.UpdatePosition Scenario.conn_a Scenario.first]
             (Simple.start "3000") in
  let w' := Simple.step (Simple.UpdatePosition Scenario.conn_a Scenario.lat91) w in
  dataInMemory w !! "u1" = Some (JObj [("lat", JNum 10%float); ("lng", JNum 20%float)]) ∧
  dataInMemory w' !! "u1" = Some (JObj [("lat", JNum 91%float); ("lng", JNum 20%float)]) ∧
  dataInMemory w' ≠ dataInMemory w.
Proof.
  split; [reflexivity|]. split; [reflexivity|].
  split; [reflexivity|]. split; [reflexivity|].
  intros Heq.
  apply (f_equal (λ m : gmap string Json,
                    match m !! "u1" with
                    | Some (JObj ((_, JNum x) :: _)) => PrimFloat.leb x 90%float
                    | _ => true
                    end)) in Heq.
  vm_compute in Heq. discriminate Heq.
Qed.

(** C3, amended.  No listener tests the range of a coordinate.  For a
    sample whose latitude is 91, and whose user id is not ["__proto__"],
    the simple variant's listener ends normally and sets the cache entry of
    the sample's user id to latitude 91 and the sample's longitude, leaving
    the other entries and the prototype of the cache object alone; for
    any sample whose latitude is 91 the richer variant's listener ends
    normally, leaves the cache exactly as it was and inserts the sample,
    latitude 91 included, into [coordinates].  Neither returns a value,
    throws, or sends a packet to any client. *)
Theorem latitude_91_is_ingested (w : World) (socket : Socket)
    (sample : Simple.PositionData) (rsample : Rich.PositionData)
    (answer : settled (PostgrestResponse unit)) :
  Simple.lat sample = 91%float →
  Simple.userId sample ≠ "__proto__" →
  Rich.lat rsample = 91%float →
  (outcome (Simple.update_position socket sample) w = Normal tt ∧
   dataInMemory (exec (Simple.update_position socket sample) w) =
     <[Simple.userId sample :=
         JObj [("lat", JNum 91%float); ("lng", JNum (Simple.lng sample))]]> (dataInMemory w) ∧
   prototype (exec (Simple.update_position socket sample) w) = prototype w ∧
   delivered (exec (Simple.update_position socket sample) w) = delivered w) ∧
  (outcome (Rich.update_position socket rsample answer) w = Normal tt ∧
   dataInMemory (exec (Rich.update_position socket rsample answer) w) = dataInMemory w ∧
   prototype (exec (Rich.update_position socket rsample answer) w) = prototype w ∧
   queries (exec (Rich.update_position socket rsample answer) w) =
     queries w ++ [coordinates_insert (Rich.userId rsample) (Rich.tripId rsample)
                     91%float (Rich.lng rsample)] ∧
   delivered (exec (Rich.update_position socket rsample answer) w) = delivered w).
Proof.
  intros Hlat Hkey Hrlat. split.
  - destruct (simple_update_position_cache socket sample w Hkey) as [Hown Hproto].
    split; [reflexivity|]. split; [|split; [exact Hproto|]].
    + rewrite Hown. unfold Simple.position_of. by rewrite Hlat.
    + apply (simple_update_position_preserves delivered); reflexivity.
  - rewrite <- Hrlat. destruct answer as [[d [e|]]|e]; repeat split.
Qed.

Lemma latitude_91_is_ingested_witness :
  Simple.lat Scenario.lat91 = 91%float ∧
  Simple.userId Scenario.lat91 ≠ "__proto__" ∧
  Rich.lat Scenario.rich_lat91 = 91%float ∧
  dataInMemory (exec (Simple.update_position Scenario.conn_a Scenario.lat91) boot) =
    <["u1" := JObj [("lat", JNum 91%float); ("lng", JNum 20%float)]]> ∅ ∧
  dataInMemory (exec (Rich.update_position Scenario.conn_a Scenario.rich_lat91
                        Scenario.saved) boot) = ∅.
Proof.
  split; [reflexivity|].
  assert (Simple.userId Scenario.lat91 ≠ "__proto__") as Hkey by discriminate.
  split; [exact Hkey|]. split; [reflexivity|].
  pose proof (latitude_91_is_ingested boot Scenario.conn_a Scenario.lat91
                Scenario.rich_lat91 Scenario.saved eq_refl Hkey eq_refl)
    as ((_ & Hcache & _) & (_ & Hrich & _)).
  split; [exact Hcache | exact Hrich].
Defined.

(** C5, as stated, fails in its last part: after a run whose only sample
    has latitude 91, so that no valid sample of user [u1] was ever
    ingested, the cache has an entry for [u1]. *)
Lemma entry_without_valid_sample :
  let evs := [Simple.Connection Scenario.conn_a;
              Simple.UpdatePosition Scenario.conn_a Scenario.lat91] in
  forallb (λ ev, negb (Simple.carries_valid "u1" ev)) evs = true ∧
  dataInMemory (Simple.run evs (Simple.start "3000")) !! "u1" =
    Some (JObj [("lat", JNum 91%float); ("lng", JNum 20%float)]).
Proof. split; reflexivity. Qed.

(** C5, amended.  After every sequence of events from start-up in which no
    sample has the user id ["__proto__"], the cache of the simple variant
    has at most one entry per user id and the cache object still has the
    prototype it started with; a further sample of a user other than
    ["__proto__"] replaces the entry of that user by the sample's own
    [{ lat, lng }], keeping nothing of the entry that was there; and no
    entry exists for a user id of which the run carried no sample at all
    (the listener validates nothing, so any sample creates the entry). *)
Theorem cache_invariant (PORT : string) (evs : list Simple.Event) (u : string) :
  forallb (λ ev, negb (Simple.carries "__proto__" ev)) evs = true →
  let w := Simple.run evs (Simple.start PORT) in
  NoDup (map_to_list (dataInMemory w)).*1 ∧
  prototype w = ObjectPrototype ∧
  (∀ socket sample,
     Simple.userId sample = u →
     u ≠ "__proto__" →
     dataInMemory (exec (Simple.update_position socket sample) w) !! u =
       Some (JObj [("lat", JNum (Simple.lat sample)); ("lng", JNum (Simple.lng sample))]) ∧
     dataInMemory (exec (Simple.update_position socket sample) w) =
       <[u := Simple.position_of sample]> (delete u (dataInMemory w)) ∧
     prototype (exec (Simple.update_position socket sample) w) = ObjectPrototype) ∧
  (forallb (λ ev, negb (Simple.carries u ev)) evs = true → dataInMemory w !! u = None).
Proof.
  intros Hordinary w.
  assert (prototype w = ObjectPrototype) as Hproto
    by (subst w; by rewrite simple_run_prototype).
  split; [apply NoDup_fst_map_to_list|]. split; [exact Hproto|]. split.
  - intros socket sample <- Hkey.
    destruct (simple_update_position_cache socket sample w Hkey) as [-> ->].
    split; [apply lookup_insert_eq|]. split; [by rewrite insert_delete_eq | exact Hproto].
  - intros Hevs. subst w. by rewrite simple_run_other_user.
Qed.

Lemma cache_invariant_witness :
  let evs := [Simple.Connection Scenario.conn_a;
              Simple.UpdatePosition Scenario.conn_a Scenario.first] in
  forallb (λ ev, negb (Simple.carries "__proto__" ev)) evs = true ∧
  forallb (λ ev, negb (Simple.carries "u2" ev)) evs = true ∧
  dataInMemory (Simple.run evs (Simple.start "3000")) !! "u2" = None ∧
  Simple.userId Scenario.second = "u1" ∧
  "u1" ≠ "__proto__" ∧
  dataInMemory (exec (Simple.update_position Scenario.conn_a Scenario.second)
                  (Simple.run evs (Simple.start "3000"))) !! "u1" =
    Some (JObj [("lat", JNum 11%float); ("lng", JNum 21%float)]).
Proof.
  intros evs. split; [reflexivity|]. split; [reflexivity|]. split.
  - apply (cache_invariant "3000" evs "u2"); reflexivity.
  - split; [reflexivity|].
    assert ("u1" ≠ "__proto__") as Hkey by discriminate.
    split; [exact Hkey|].
    pose proof (cache_invariant "3000" evs "u1" eq_refl) as (_ & _ & Hreplace & _).
    apply (Hreplace Scenario.conn_a Scenario.second eq_refl Hkey).
Defined.

(** * The rest of the two servers *)

(** ** How answering and querying compose *)

Section Answering.
Context (P : HttpResponse → Prop).

Lemma answers_or_throws_respond (code : nat) (j : Json) :
  P {| status := code; body := JsonBody j |} → answers_or_throws P (res_status_json code j).
Proof. intros HP w. simpl. eexists. split; [reflexivity | exact HP]. Qed.

Lemma answers_or_throws_throw {A} (e : JsError) : answers_or_throws P (@throw A e).
Proof. intros w. reflexivity. Qed.

Lemma answers_or_throws_bind {A B} (m : Eff A) (k : A → Eff B) :
  preserves responses m → (∀ a, answers_or_throws P (k a)) →
  answers_or_throws P (m ≫= k).
Proof.
  intros Hm Hk w. specialize (Hm w).
  unfold outcome, exec, mbind, Eff_bind, bind in *.
  destruct (m w) as [[a|e] w'] eqn:Hrun; simpl in *.
  - specialize (Hk a w'). unfold outcome, exec in Hk. rewrite Hm in Hk. exact Hk.
  - exact Hm.
Qed.

Lemma answers_try_catch (body : Eff unit) (handler : JsError → Eff unit) :
  answers_or_throws P body → (∀ e, answers P (handler e)) →
  answers P (try_catch body handler).
Proof.
  intros Hb Hh w. specialize (Hb w).
  unfold outcome, exec, try_catch in *.
  destruct (body w) as [[[]|e] w'] eqn:Hrun; simpl in *.
  - destruct Hb as (r & Hr & HP). by exists tt, r.
  - destruct (Hh e w') as (a & r & Hout & Hr & HP).
    unfold outcome, exec in *. exists a, r. by rewrite Hout, Hr, Hb.
Qed.

Lemma answers_report (args : list LogArg) (code : nat) (j : Json) :
  P {| status := code; body := JsonBody j |} →
  answers P (console_error args;; res_status_json code j).
Proof. intros HP w. exists tt. eexists. split; [reflexivity|]. split; [reflexivity | exact HP]. Qed.

End Answering.

Section Issuing.
Context (Q : Query → Prop).

Lemma issues_quiet {A} (m : Eff A) : preserves queries m → issues Q m.
Proof. intros Hm w. exists []. unfold exec. by rewrite Hm, app_nil_r. Qed.

Lemma issues_supabase {A} (q : Query) (answer : settled (PostgrestResponse A)) :
  Q q → issues Q (supabase q answer).
Proof.
  intros HQ w. exists [q]. split; [|by constructor].
  unfold exec, supabase. destruct answer; reflexivity.
Qed.

Lemma issues_bind {A B} (m : Eff A) (k : A → Eff B) :
  issues Q m → (∀ a, issues Q (k a)) → issues Q (m ≫= k).
Proof.
  intros Hm Hk w. destruct (Hm w) as (qs & Hqs & HQ).
  unfold exec, mbind, Eff_bind, bind in *.
  destruct (m w) as [[a|e] w'] eqn:Hrun; simpl in *.
  - destruct (Hk a w') as (qs' & Hqs' & HQ'). unfold exec in Hqs'.
    exists (qs ++ qs'). rewrite Hqs', Hqs, app_assoc. split; [reflexivity|].
    by apply Forall_app.
  - by exists qs.
Qed.

Lemma issues_await_bind {A B} (p : settled A) (k : A → Eff B) :
  (∀ a, p = Fulfilled a → issues Q (k a)) → issues Q (await p ≫= k).
Proof.
  intros Hk. destruct p as [a|e].
  - intros w. apply (Hk a eq_refl w).
  - intros w. exists []. by rewrite app_nil_r.
Qed.

Lemma issues_try_catch {A} (body : Eff A) (handler : JsError → Eff A) :
  issues Q body → (∀ e, issues Q (handler e)) → issues Q (try_catch body handler).
Proof.
  intros Hb Hh w. destruct (Hb w) as (qs & Hqs & HQ).
  unfold exec, try_catch in *.
  destruct (body w) as [[a|e] w'] eqn:Hrun; simpl in *.
  - by exists qs.
  - destruct (Hh e w') as (qs' & Hqs' & HQ'). unfold exec in Hqs'.
    exists (qs ++ qs'). rewrite Hqs', Hqs, app_assoc. split; [reflexivity|].
    by apply Forall_app.
Qed.

End Issuing.

(** Splits a route along its binds and case distinctions down to the
    response it sends or the exception it throws. *)
Ltac answering :=
  repeat first
    [ apply answers_or_throws_bind;
      [ first [ apply supabase_preserves; reflexivity | frame ] | intros ? ]
    | apply answers_or_throws_respond
    | apply answers_or_throws_throw
    | case_match ].

(** The same for the queries a route issues. *)
Ltac issuing :=
  repeat first
    [ apply issues_try_catch; [| intros ? ]
    | apply issues_supabase; solve [ cbv beta iota; auto ]
    | apply issues_await_bind; intros ? ?
    | apply issues_bind; [| intros ? ]
    | apply issues_quiet; solve [ frame ]
    | case_match ].

(** ** The routes of the richer variant *)

Lemma register_answers (body : Rich.RegisterBody) (ans : Rich.RegisterAnswers) :
  answers (λ r, status r = 201 ∨ status r = 400 ∨ status r = 500)
    (Rich.post_auth_register body ans).
Proof.
  apply answers_try_catch;
    [ unfold Rich.member_of_null; answering; simpl; tauto
    | intros e; apply answers_report; simpl; tauto ].
Qed.

Lemma login_answers (body : Rich.LoginBody) (ans : Rich.LoginAnswers) :
  answers (λ r, status r = 200 ∨ status r = 401 ∨ status r = 500)
    (Rich.post_auth_login body ans).
Proof.
  apply answers_try_catch;
    [ answering; simpl; tauto | intros e; apply answers_report; simpl; tauto ].
Qed.

Lemma trips_answers (answer : settled (PostgrestResponse Json)) :
  answers (λ r, status r = 200 ∨ status r = 500) (Rich.get_api_trips answer).
Proof.
  apply answers_try_catch;
    [ answering; simpl; tauto | intros e; apply answers_report; simpl; tauto ].
Qed.

Lemma trip_answers (tripId : string) (answer : settled (PostgrestResponse (list Rich.Point))) :
  answers (λ r, status r = 200 ∨ status r = 500) (Rich.get_api_trips_tripId tripId answer).
Proof.
  apply answers_try_catch;
    [ answering; simpl; tauto | intros e; apply answers_report; simpl; tauto ].
Qed.

(** X1.  Every HTTP route of the richer variant ends normally, whatever the
    request holds and whatever Supabase, bcrypt and jsonwebtoken answer,
    and sends exactly one response: 201, 400 or 500 for
    [POST /auth/register], 200, 401 or 500 for [POST /auth/login], 200 or
    500 for the two trip routes. *)
Theorem rich_routes_answer_exactly_once :
  (∀ body ans,
     answers (λ r, status r = 201 ∨ status r = 400 ∨ status r = 500)
       (Rich.post_auth_register body ans)) ∧
  (∀ body ans,
     answers (λ r, status r = 200 ∨ status r = 401 ∨ status r = 500)
       (Rich.post_auth_login body ans)) ∧
  (∀ answer, answers (λ r, status r = 200 ∨ status r = 500) (Rich.get_api_trips answer)) ∧
  (∀ tripId answer,
     answers (λ r, status r = 200 ∨ status r = 500) (Rich.get_api_trips_tripId tripId answer)).
Proof.
  split; [apply register_answers|]. split; [apply login_answers|].
  split; [apply trips_answers | apply trip_answers].
Qed.

(** X2.  [POST /auth/register] with a form in which one of [email],
    [password], [firstName], [lastName] is missing or empty answers 400
    [{ error: "Algo deu errado!" }] and does nothing else: no query is
    issued, nothing is hashed or printed. *)
Theorem register_rejects_incomplete_form (body : Rich.RegisterBody)
    (ans : Rich.RegisterAnswers) (w : World) :
  Rich.truthy (Rich.reg_email body) = None ∨ Rich.truthy (Rich.reg_password body) = None ∨
  Rich.truthy (Rich.reg_firstName body) = None ∨ Rich.truthy (Rich.reg_lastName body) = None →
  Rich.post_auth_register body ans w =
  (Normal tt,
   set_responses
     (λ r, r ++ [{| status := 400; body := JsonBody (JObj [("error", JStr "Algo deu errado!")]) |}])
     w).
Proof.
  intros Hmissing. unfold Rich.post_auth_register, try_catch.
  destruct (Rich.truthy (Rich.reg_email body)), (Rich.truthy (Rich.reg_password body)),
    (Rich.truthy (Rich.reg_firstName body)), (Rich.truthy (Rich.reg_lastName body));
    try reflexivity.
  destruct Hmissing as [H|[H|[H|H]]]; discriminate H.
Qed.

Lemma register_rejects_incomplete_form_witness :
  Rich.truthy (Rich.reg_lastName Accounts.incomplete) = None ∧
  responses (exec (Rich.post_auth_register Accounts.incomplete Accounts.fresh) boot) =
    [{| status := 400; body := JsonBody (JObj [("error", JStr "Algo deu errado!")]) |}] ∧
  queries (exec (Rich.post_auth_register Accounts.incomplete Accounts.fresh) boot) = [].
Proof.
  split; [reflexivity|].
  unfold exec.
  rewrite (register_rejects_incomplete_form Accounts.incomplete Accounts.fresh boot)
    by (right; right; right; reflexivity).
  split; reflexivity.
Defined.

(** X3.  [POST /auth/register] with a complete form whose e-mail the table
    [users] already holds answers 400 [{ error: "E-mail já cadastrado." }]
    after that one lookup: nothing is inserted and nothing is printed. *)
Theorem register_rejects_known_email (body : Rich.RegisterBody)
    (ans : Rich.RegisterAnswers) (w : World)
    (email password firstName lastName : string)
    (existing : PostgrestResponse number) :
  Rich.truthy (Rich.reg_email body) = Some email →
  Rich.truthy (Rich.reg_password body) = Some password →
  Rich.truthy (Rich.reg_firstName body) = Some firstName →
  Rich.truthy (Rich.reg_lastName body) = Some lastName →
  Rich.reg_existing ans = Fulfilled existing →
  is_Some (resp_data existing) →
  Rich.post_auth_register body ans w =
  (Normal tt,
   set_responses
     (λ r, r ++ [{| status := 400;
                    body := JsonBody (JObj [("error", JStr "E-mail já cadastrado.")]) |}])
     (set_queries (λ qs, qs ++ [users_select_id email]) w)).
Proof.
  intros He Hp Hf Hl Hex [found Hfound].
  unfold Rich.post_auth_register, try_catch, mbind, Eff_bind, bind, supabase.
  rewrite He, Hp, Hf, Hl, Hex. simpl. rewrite Hfound. reflexivity.
Qed.

Lemma register_rejects_known_email_witness :
  responses (exec (Rich.post_auth_register Accounts.form Accounts.taken) boot) =
    [{| status := 400; body := JsonBody (JObj [("error", JStr "E-mail já cadastrado.")]) |}] ∧
  queries (exec (Rich.post_auth_register Accounts.form Accounts.taken) boot) =
    [users_select_id "ana@example.com"].
Proof.
  unfold exec.
  rewrite (register_rejects_known_email Accounts.form Accounts.taken boot
             "ana@example.com" "segredo" "Ana" "Silva"
             {| resp_data := Some 7%float; resp_error := None |}
             eq_refl eq_refl eq_refl eq_refl eq_refl (ex_intro _ _ eq_refl)).
  split; reflexivity.
Defined.

(** X4.  Whatever happens, the only queries [POST /auth/register] issues
    are the lookup of the form's e-mail and an insert into [users] of the
    form's e-mail and names together with the string that [bcrypt.hash]
    returned: the password column never receives anything else. *)
Theorem register_stores_only_the_hash (body : Rich.RegisterBody) (ans : Rich.RegisterAnswers) :
  issues
    (λ q, match q with
          | users_select_id email => Rich.truthy (Rich.reg_email body) = Some email
          | users_insert email password first_name last_name =>
              Rich.truthy (Rich.reg_email body) = Some email ∧
              Rich.reg_hash ans = Fulfilled password ∧
              Rich.truthy (Rich.reg_firstName body) = Some first_name ∧
              Rich.truthy (Rich.reg_lastName body) = Some last_name
          | _ => False
          end)
    (Rich.post_auth_register body ans).
Proof. unfold Rich.post_auth_register, Rich.member_of_null. issuing. Qed.

(** X5.  [POST /auth/register] with a complete form, a free e-mail, a hash
    from bcrypt, an insert that returns the new row and a signed token
    issues the lookup and then the insert with the hash, in that order,
    and answers 201 with the new user's id, e-mail and names and the
    token. *)
Theorem register_creates_account (body : Rich.RegisterBody) (ans : Rich.RegisterAnswers)
    (w : World) (email password firstName lastName hash token : string)
    (existing : PostgrestResponse number) (newUser : Rich.User) :
  Rich.truthy (Rich.reg_email body) = Some email →
  Rich.truthy (Rich.reg_password body) = Some password →
  Rich.truthy (Rich.reg_firstName body) = Some firstName →
  Rich.truthy (Rich.reg_lastName body) = Some lastName →
  Rich.reg_existing ans = Fulfilled existing →
  resp_data existing = None →
  Rich.reg_hash ans = Fulfilled hash →
  Rich.reg_insert ans = Fulfilled {| resp_data := Some newUser; resp_error := None |} →
  Rich.reg_sign ans = Normal token →
  outcome (Rich.post_auth_register body ans) w = Normal tt ∧
  queries (exec (Rich.post_auth_register body ans) w) =
    queries w ++ [users_select_id email; users_insert email hash firstName lastName] ∧
  responses (exec (Rich.post_auth_register body ans) w) =
    responses w ++
    [{| status := 201;
        body := JsonBody
          (JObj [("message", JStr "Usuário criado com sucesso");
                 ("user",
                  JObj [("id", JNum (Rich.user_id newUser));
                        ("email", JStr (Rich.user_email newUser));
                        ("firstName", JStr (Rich.user_first_name newUser));
                        ("lastName", JStr (Rich.user_last_name newUser))]);
                 ("token", JStr token)]) |}] ∧
  console (exec (Rich.post_auth_register body ans) w) = console w.
Proof.
  intros He Hp Hf Hl Hex Hfree Hh Hins Hsign.
  unfold outcome, exec, Rich.post_auth_register, try_catch, mbind, Eff_bind, bind, supabase.
  rewrite He, Hp, Hf, Hl, Hex. simpl. rewrite Hfree, Hh. simpl.
  rewrite Hins. simpl. rewrite Hsign. simpl.
  rewrite <- app_assoc. by repeat split.
Qed.

Lemma register_creates_account_witness :
  responses (exec (Rich.post_auth_register Accounts.form Accounts.fresh) boot) =
    [{| status := 201;
        body := JsonBody
          (JObj [("message", JStr "Usuário criado com sucesso");
                 ("user",
                  JObj [("id", JNum 7%float); ("email", JStr "ana@example.com");
                        ("firstName", JStr "Ana"); ("lastName", JStr "Silva")]);
                 ("token", JStr "header.claims.signature")]) |}] ∧
  queries (exec (Rich.post_auth_register Accounts.form Accounts.fresh) boot) =
    [users_select_id "ana@example.com";
     users_insert "ana@example.com" "$2a$10$hash" "Ana" "Silva"].
Proof.
  pose proof (register_creates_account Accounts.form Accounts.fresh boot
                "ana@example.com" "segredo" "Ana" "Silva" "$2a$10$hash"
                "header.claims.signature" _ Accounts.ana
                eq_refl eq_refl eq_refl eq_refl eq_refl eq_refl eq_refl eq_refl eq_refl)
    as (_ & Hq & Hr & _).
  split; [exact Hr | exact Hq].
Defined.

(** Every way [POST /auth/register] can go, as one case distinction. *)
Ltac register_cases body ans :=
  unfold outcome, exec, Rich.post_auth_register, Rich.member_of_null,
    try_catch, mbind, Eff_bind, bind, supabase in *;
  destruct (Rich.truthy (Rich.reg_email body)) as [email|] eqn:?;
  destruct (Rich.truthy (Rich.reg_password body)) as [password|] eqn:?;
  destruct (Rich.truthy (Rich.reg_firstName body)) as [firstName|] eqn:?;
  destruct (Rich.truthy (Rich.reg_lastName body)) as [lastName|] eqn:?;
  destruct (Rich.reg_existing ans) as [[[known|] ?]|?] eqn:?;
  destruct (Rich.reg_hash ans) as [hash|?] eqn:?;
  destruct (Rich.reg_insert ans) as [[[newUser|] [?|]]|?] eqn:?;
  destruct (Rich.reg_sign ans) as [token|?] eqn:?;
  simpl in *.

(** From [l ++ [r'] = l ++ [r]] to [r' = r]. *)
Ltac same_response H :=
  rewrite <- ?app_assoc in H; apply app_inv_head in H;
  first [ discriminate H | injection H as <- ].

(** X6.  [POST /auth/register] answers 201 only when all of this happened:
    the form was complete (e-mail, password, first and last name all
    present and not empty), the lookup found no row, bcrypt returned a
    hash, the insert of that hash returned the new row without an error,
    and the token was signed.  In every other case the status is not 201. *)
Theorem register_created_only_after_insert (body : Rich.RegisterBody)
    (ans : Rich.RegisterAnswers) (w : World) (r : HttpResponse) :
  responses (exec (Rich.post_auth_register body ans) w) = responses w ++ [r] →
  status r = 201 →
  ∃ email password hash firstName lastName newUser token,
    Rich.truthy (Rich.reg_email body) = Some email ∧
    Rich.truthy (Rich.reg_password body) = Some password ∧
    Rich.truthy (Rich.reg_firstName body) = Some firstName ∧
    Rich.truthy (Rich.reg_lastName body) = Some lastName ∧
    (∃ existing, Rich.reg_existing ans = Fulfilled existing ∧ resp_data existing = None) ∧
    Rich.reg_hash ans = Fulfilled hash ∧
    Rich.reg_insert ans = Fulfilled {| resp_data := Some newUser; resp_error := None |} ∧
    Rich.reg_sign ans = Normal token ∧
    queries (exec (Rich.post_auth_register body ans) w) =
      queries w ++ [users_select_id email; users_insert email hash firstName lastName].
Proof.
  intros Hr Hcreated.
  register_cases body ans; same_response Hr; try discriminate Hcreated.
  exists email, password, hash, firstName, lastName, newUser, token.
  rewrite <- app_assoc. repeat split; eauto.
Qed.

Lemma register_created_only_after_insert_witness :
  ∃ email password hash firstName lastName newUser token,
    Rich.truthy (Rich.reg_email Accounts.form) = Some email ∧
    Rich.truthy (Rich.reg_password Accounts.form) = Some password ∧
    Rich.truthy (Rich.reg_firstName Accounts.form) = Some firstName ∧
    Rich.truthy (Rich.reg_lastName Accounts.form) = Some lastName ∧
    (∃ existing, Rich.reg_existing Accounts.fresh = Fulfilled existing ∧
                 resp_data existing = None) ∧
    Rich.reg_hash Accounts.fresh = Fulfilled hash ∧
    Rich.reg_insert Accounts.fresh =
      Fulfilled {| resp_data := Some newUser; resp_error := None |} ∧
    Rich.reg_sign Accounts.fresh = Normal token ∧
    queries (exec (Rich.post_auth_register Accounts.form Accounts.fresh) boot) =
      queries boot ++ [users_select_id email; users_insert email hash firstName lastName].
Proof.
  apply (register_created_only_after_insert Accounts.form Accounts.fresh boot
           {| status := 201;
              body := JsonBody
                (JObj [("message", JStr "Usuário criado com sucesso");
                       ("user", Rich.claims_of Accounts.ana);
                       ("token", JStr "header.claims.signature")]) |});
    reflexivity.
Defined.

(** X7.  When [POST /auth/register] answers 500, an error [e] was thrown
    inside the route; the route printed [e] with [console.error] and the
    response is [{ error: "Erro ao criar conta", details: e.message }], so
    the error's message reaches the client. *)
Theorem register_failure_reports_details (body : Rich.RegisterBody)
    (ans : Rich.RegisterAnswers) (w : World) (r : HttpResponse) :
  responses (exec (Rich.post_auth_register body ans) w) = responses w ++ [r] →
  status r = 500 →
  ∃ e,
    r = {| status := 500;
           body := JsonBody (JObj [("error", JStr "Erro ao criar conta");
                                   ("details", JStr (message e))]) |} ∧
    console (exec (Rich.post_auth_register body ans) w) =
      console w ++ [{| level := Error; line := [Err e] |}].
Proof.
  intros Hr Hfailed.
  register_cases body ans; same_response Hr; try discriminate Hfailed;
    eexists; (split; [|reflexivity]); reflexivity.
Qed.

Lemma register_failure_reports_details_witness :
  ∃ e,
    {| status := 500;
       body := JsonBody (JObj [("error", JStr "Erro ao criar conta");
                               ("details", JStr "duplicate key")]) |} =
    {| status := 500;
       body := JsonBody (JObj [("error", JStr "Erro ao criar conta");
                               ("details", JStr (message e))]) |} ∧
    console (exec (Rich.post_auth_register Accounts.form Accounts.refused) boot) =
      console boot ++ [{| level := Error; line := [Err e] |}].
Proof.
  apply (register_failure_reports_details Accounts.form Accounts.refused boot);
    reflexivity.
Defined.

(** Every way [POST /auth/login] can go, as one case distinction. *)
Ltac login_cases ans :=
  unfold outcome, exec, Rich.post_auth_login, try_catch, mbind, Eff_bind, bind, supabase in *;
  destruct (Rich.login_user ans) as [[[user|] [?|]]|?] eqn:?;
  destruct (Rich.login_compare ans) as [[|]|?] eqn:?;
  destruct (Rich.login_sign ans) as [token|?] eqn:?;
  simpl in *.

(** X8.  [POST /auth/login] sends a token only after a matching password.
    Its response is one of three: 200 with the message, the signed token
    and the decoded payload, and then the lookup had returned a user
    without an error, [bcrypt.compare] had said the password matches and
    the token had been signed; or 401 [{ error: "Credenciais inválidas" }];
    or 500 [{ error: "Erro interno do servidor" }].  The last two hold no
    token, so none is sent for an unknown e-mail or a wrong password. *)
Theorem login_token_requires_matching_password (form : Rich.LoginBody)
    (ans : Rich.LoginAnswers) (w : World) (r : HttpResponse) :
  responses (exec (Rich.post_auth_login form ans) w) = responses w ++ [r] →
  (∃ user token,
     Rich.login_user ans = Fulfilled {| resp_data := Some user; resp_error := None |} ∧
     Rich.login_compare ans = Fulfilled true ∧
     Rich.login_sign ans = Normal token ∧
     r = {| status := 200;
            body := JsonBody (JObj [("message", JStr "Login realizado");
                                    ("token", JStr token);
                                    ("payload", Rich.login_decode ans)]) |}) ∨
  r = {| status := 401;
         body := JsonBody (JObj [("error", JStr "Credenciais inválidas")]) |} ∨
  r = {| status := 500;
         body := JsonBody (JObj [("error", JStr "Erro interno do servidor")]) |}.
Proof.
  intros Hr.
  login_cases ans; same_response Hr;
    first [ left; by exists user, token | right; left; reflexivity | right; right; reflexivity ].
Qed.

Lemma login_token_requires_matching_password_witness :
  let r := {| status := 401;
              body := JsonBody (JObj [("error", JStr "Credenciais inválidas")]) |} in
  responses (exec (Rich.post_auth_login Accounts.credentials Accounts.wrong_password) boot) =
    responses boot ++ [r] ∧
  ((∃ user token,
      Rich.login_user Accounts.wrong_password =
        Fulfilled {| resp_data := Some user; resp_error := None |} ∧
      Rich.login_compare Accounts.wrong_password = Fulfilled true ∧
      Rich.login_sign Accounts.wrong_password = Normal token ∧
      r = {| status := 200;
             body := JsonBody (JObj [("message", JStr "Login realizado");
                                     ("token", JStr token);
                                     ("payload", Rich.login_decode Accounts.wrong_password)]) |}) ∨
   r = {| status := 401;
          body := JsonBody (JObj [("error", JStr "Credenciais inválidas")]) |} ∨
   r = {| status := 500;
          body := JsonBody (JObj [("error", JStr "Erro interno do servidor")]) |}).
Proof.
  intros r. split; [reflexivity|].
  apply (login_token_requires_matching_password Accounts.credentials
           Accounts.wrong_password boot r).
  reflexivity.
Defined.

(** X9.  [POST /auth/login] treats an unknown e-mail and a wrong password
    alike: when the lookup comes back with an error or without a row, or
    when [bcrypt.compare] says the password does not match, the route
    issues its one lookup, prints nothing and answers the same 401
    [{ error: "Credenciais inválidas" }]. *)
Theorem login_rejections_look_alike (body : Rich.LoginBody) (ans : Rich.LoginAnswers)
    (w : World) (found : PostgrestResponse Rich.User) :
  Rich.login_user ans = Fulfilled found →
  is_Some (resp_error found) ∨ resp_data found = None ∨
    Rich.login_compare ans = Fulfilled false →
  Rich.post_auth_login body ans w =
  (Normal tt,
   set_responses
     (λ r, r ++ [{| status := 401;
                    body := JsonBody (JObj [("error", JStr "Credenciais inválidas")]) |}])
     (set_queries (λ qs, qs ++ [users_select_all (Rich.login_email body)]) w)).
Proof.
  intros Hfound Hrejected.
  unfold Rich.post_auth_login, try_catch, mbind, Eff_bind, bind, supabase.
  rewrite Hfound. simpl.
  destruct found as [[user|] [e|]]; simpl in *; try reflexivity.
  destruct Hrejected as [[e He]|[Hnone|Hwrong]]; [discriminate He | discriminate Hnone |].
  by rewrite Hwrong.
Qed.

Lemma login_rejections_look_alike_witness :
  Rich.post_auth_login Accounts.credentials Accounts.wrong_password boot =
  (Normal tt,
   set_responses
     (λ r, r ++ [{| status := 401;
                    body := JsonBody (JObj [("error", JStr "Credenciais inválidas")]) |}])
     (set_queries (λ qs, qs ++ [users_select_all (Some "ana@example.com")]) boot)).
Proof.
  apply (login_rejections_look_alike Accounts.credentials Accounts.wrong_password boot
           {| resp_data := Some Accounts.ana; resp_error := None |} eq_refl).
  right. right. reflexivity.
Defined.

Lemma login_issues (body : Rich.LoginBody) (ans : Rich.LoginAnswers) :
  issues (λ q, q = users_select_all (Rich.login_email body)) (Rich.post_auth_login body ans).
Proof. unfold Rich.post_auth_login. issuing. Qed.

Lemma trips_issues (answer : settled (PostgrestResponse Json)) :
  issues (λ q, q = trips_summary_select_all) (Rich.get_api_trips answer).
Proof. unfold Rich.get_api_trips. issuing. Qed.

Lemma trip_issues (tripId : string) (answer : settled (PostgrestResponse (list Rich.Point))) :
  issues (λ q, q = coordinates_select_lat_lng tripId) (Rich.get_api_trips_tripId tripId answer).
Proof. unfold Rich.get_api_trips_tripId. issuing. Qed.

(** X10.  The reading routes only read: [POST /auth/login] issues nothing
    but the lookup of the e-mail it was given, [GET /api/trips] nothing but
    the select on [trips_summary], [GET /api/trips/:tripId] nothing but the
    select of the coordinates of that trip; none of them ever issues an
    insert, whatever the answers. *)
Theorem reading_routes_issue_their_select_only :
  (∀ body ans,
     issues (λ q, q = users_select_all (Rich.login_email body))
       (Rich.post_auth_login body ans)) ∧
  (∀ answer, issues (λ q, q = trips_summary_select_all) (Rich.get_api_trips answer)) ∧
  (∀ tripId answer,
     issues (λ q, q = coordinates_select_lat_lng tripId)
       (Rich.get_api_trips_tripId tripId answer)).
Proof.
  split; [apply login_issues|]. split; [apply trips_issues | apply trip_issues].
Qed.

(** X11.  The trip routes keep database errors from the client.  When the
    select fails, by an [error] member or by a rejected promise, each route
    prints the error with [console.error] after its own prefix and answers
    500 with a fixed message in which the error does not appear. *)
Theorem trip_routes_hide_errors (e : JsError) (data : option Json)
    (rows : option (list Rich.Point)) (tripId : string) (w : World) :
  let apology := {| status := 500;
                    body := JsonBody (JObj [("error", JStr "Erro ao buscar histórico de viagens")]) |} in
  let apology' := {| status := 500;
                     body := JsonBody (JObj [("error", JStr "Erro ao carregar rota da viagem")]) |} in
  let printed := {| level := Error; line := [Val (JStr "Erro ao buscar viagens:"); Err e] |} in
  let printed' := {| level := Error; line := [Val (JStr "Erro ao buscar rota:"); Err e] |} in
  (∀ answer,
     answer = Rejected e ∨ answer = Fulfilled {| resp_data := data; resp_error := Some e |} →
     outcome (Rich.get_api_trips answer) w = Normal tt ∧
     responses (exec (Rich.get_api_trips answer) w) = responses w ++ [apology] ∧
     console (exec (Rich.get_api_trips answer) w) = console w ++ [printed]) ∧
  (∀ answer,
     answer = Rejected e ∨ answer = Fulfilled {| resp_data := rows; resp_error := Some e |} →
     outcome (Rich.get_api_trips_tripId tripId answer) w = Normal tt ∧
     responses (exec (Rich.get_api_trips_tripId tripId answer) w) = responses w ++ [apology'] ∧
     console (exec (Rich.get_api_trips_tripId tripId answer) w) = console w ++ [printed']).
Proof.
  intros apology apology' printed printed'.
  split; intros answer [->| ->]; repeat split.
Qed.

Lemma trip_routes_hide_errors_witness :
  responses (exec (Rich.get_api_trips (Rejected {| message := "fetch failed" |})) boot) =
    [{| status := 500;
        body := JsonBody (JObj [("error", JStr "Erro ao buscar histórico de viagens")]) |}] ∧
  console (exec (Rich.get_api_trips_tripId "t1" (Rejected {| message := "fetch failed" |})) boot) =
    [{| level := Error;
        line := [Val (JStr "Erro ao buscar rota:"); Err {| message := "fetch failed" |}] |}].
Proof.
  pose proof (trip_routes_hide_errors {| message := "fetch failed" |} None None "t1" boot)
    as [Htrips Htrip].
  destruct (Htrips _ (or_introl eq_refl)) as (_ & Hr & _).
  destruct (Htrip _ (or_introl eq_refl)) as (_ & _ & Hc).
  split; [exact Hr | exact Hc].
Defined.

(** X12.  [GET /api/trips/:tripId], when the select succeeds, answers 200
    with an array that has one element per row, in the order of the rows,
    the element of a row being [[lng, lat]] (longitude first); when the
    rows are [null] the array is empty. *)
Theorem trip_path_puts_longitude_first (tripId : string)
    (rows : option (list Rich.Point)) (w : World) :
  let answer := Fulfilled {| resp_data := rows; resp_error := None |} in
  ∃ path,
    responses (exec (Rich.get_api_trips_tripId tripId answer) w) =
      responses w ++ [{| status := 200; body := JsonBody (JArr path) |}] ∧
    length path = length (default [] rows) ∧
    (∀ i, path !! i = Traffic.pair_of <$> default [] rows !! i).
Proof.
  intros answer. destruct rows as [rows|]; simpl.
  - exists (Traffic.pair_of <$> rows). split; [reflexivity|]. split.
    + apply length_fmap.
    + intros i. apply list_lookup_fmap.
  - exists []. split; [reflexivity|]. split; [reflexivity|]. intros i. reflexivity.
Qed.

(** ** Whole runs of the richer variant *)

Lemma rich_step_responses (ev : Rich.Event) (w : World) :
  length (responses (Rich.step ev w)) =
  length (responses w) + (if Traffic.rich_http ev then 1 else 0).
Proof.
  assert (∀ P (m : Eff unit), answers P m →
            length (responses (exec m w)) = length (responses w) + 1) as Hone.
  { intros P m Hm. destruct (Hm w) as (a & r & _ & Hr & _).
    rewrite Hr, length_app. reflexivity. }
  assert (∀ m : Eff unit, preserves responses m →
            length (responses (exec m w)) = length (responses w) + 0) as Hnone.
  { intros m Hm. unfold exec. rewrite Hm. lia. }
  destruct ev as [socket|socket data answer|socket|body ans|body ans|answer|tripId answer];
    unfold Rich.step; cbn [Rich.handle Traffic.rich_http].
  - apply Hnone. unfold Rich.connection. frame.
  - apply Hnone. unfold Rich.update_position. frame.
    apply supabase_preserves. reflexivity.
  - apply Hnone. unfold Rich.disconnect. frame.
  - apply (Hone _ _ (register_answers body ans)).
  - apply (Hone _ _ (login_answers body ans)).
  - apply (Hone _ _ (trips_answers answer)).
  - apply (Hone _ _ (trip_answers tripId answer)).
Qed.

(** X13.  Over any sequence of events the richer variant sends exactly one
    HTTP response per HTTP request, whatever the requests hold and however
    the libraries answer; socket events send none. *)
Theorem rich_one_response_per_request (evs : list Rich.Event) (w : World) :
  length (responses (Rich.run evs w)) =
  length (responses w) + length (List.filter Traffic.rich_http evs).
Proof.
  revert w. induction evs as [|ev evs IH]; intros w; simpl; [lia|].
  rewrite IH, rich_step_responses. destruct (Traffic.rich_http ev); simpl; lia.
Qed.

Lemma rich_handle_preserves_delivered (ev : Rich.Event) :
  preserves delivered (Rich.handle ev).
Proof.
  destruct ev; simpl;
    unfold Rich.update_position, Rich.post_auth_register, Rich.post_auth_login,
      Rich.get_api_trips, Rich.get_api_trips_tripId, Rich.connection, Rich.disconnect,
      Rich.member_of_null;
    frame; try (apply supabase_preserves; reflexivity).
Qed.

(** X14.  The richer variant never sends a packet to any client: over any
    sequence of events, from any state, the list of delivered packets stays
    what it was (the variant has no reset route and no broadcast). *)
Theorem rich_never_emits (evs : list Rich.Event) (w : World) :
  delivered (Rich.run evs w) = delivered w ∧
  delivered (Rich.run evs (Rich.start "3000")) = [].
Proof.
  assert (∀ w, delivered (Rich.run evs w) = delivered w) as Hrun.
  { induction evs as [|ev evs IH]; intros w0; simpl; [reflexivity|].
    rewrite IH. apply rich_handle_preserves_delivered. }
  split; [apply Hrun | by rewrite Hrun].
Qed.

(** X15.  The samples a connected socket sends to the richer variant reach
    the table [coordinates] one insert each, in the order of arrival, none
    twice and none left out, also when inserts fail in between. *)
Theorem rich_samples_are_inserted_in_order (socket : Socket)
    (samples : list (Rich.PositionData * settled (PostgrestResponse unit))) (w : World) :
  id socket ∈ sockets w →
  queries (Rich.run (Traffic.stream_of socket samples) w) =
  queries w ++ ((λ s, Traffic.insert_of s.1) <$> samples).
Proof.
  revert w. induction samples as [|[data answer] samples IH]; intros w Hin; simpl.
  - by rewrite app_nil_r.
  - assert (Rich.step (Rich.UpdatePosition socket data answer) w =
            exec (Rich.update_position socket data answer) w) as ->.
    { unfold Rich.step, exec. simpl. unfold while_connected.
      by rewrite bool_decide_eq_true_2. }
    rewrite IH.
    + destruct answer as [[d [e|]]|e]; unfold exec; simpl; by rewrite <- app_assoc.
    + destruct answer as [[d [e|]]|e]; exact Hin.
Qed.

Lemma rich_samples_are_inserted_in_order_witness :
  let w := Rich.step (Rich.Connection Scenario.conn_a) (Rich.start "3000") in
  id Scenario.conn_a ∈ sockets w ∧
  queries (Rich.run (Traffic.stream_of Scenario.conn_a
                       [(Scenario.rich_first, Scenario.unreachable);
                        (Scenario.rich_lat91, Scenario.saved)]) w) =
  [coordinates_insert 1%float "t1" 10%float 20%float;
   coordinates_insert 1%float "t1" 91%float 20%float].
Proof.
  intros w.
  assert (id Scenario.conn_a ∈ sockets w) as Hin
    by (apply elem_of_union_l, elem_of_singleton; reflexivity).
  split; [exact Hin|].
  apply (rich_samples_are_inserted_in_order Scenario.conn_a
           [(Scenario.rich_first, Scenario.unreachable);
            (Scenario.rich_lat91, Scenario.saved)] w Hin).
Defined.

Lemma issues_no_write (Q : Query → Prop) (m : Eff unit) (w : World) :
  (∀ q, Q q → Traffic.is_write q = false) → issues Q m →
  List.filter Traffic.is_write (queries (exec m w)) =
  List.filter Traffic.is_write (queries w).
Proof.
  intros HQ Hm. destruct (Hm w) as (qs & -> & Hqs).
  rewrite List.filter_app.
  assert (List.filter Traffic.is_write qs = []) as ->; [|apply app_nil_r].
  induction Hqs as [|q qs Hq _ IH]; [reflexivity|].
  simpl. by rewrite (HQ q Hq).
Qed.

(** X16.  Only [update_position] and [POST /auth/register] write to the
    database: over a sequence of events that holds neither, whatever else
    it holds, the inserts issued so far stay what they were. *)
Theorem rich_other_events_never_write (evs : list Rich.Event) (w : World) :
  forallb (λ ev, negb (Traffic.may_write ev)) evs = true →
  List.filter Traffic.is_write (queries (Rich.run evs w)) =
  List.filter Traffic.is_write (queries w).
Proof.
  revert w. induction evs as [|ev evs IH]; intros w Hevs; simpl in *; [reflexivity|].
  apply andb_true_iff in Hevs as [Hev Hevs]. rewrite IH by exact Hevs.
  destruct ev as [socket|socket data answer|socket|body ans|body ans|answer|tripId answer];
    try discriminate Hev; unfold Rich.step; simpl.
  - reflexivity.
  - unfold exec, while_connected. destruct (bool_decide _); reflexivity.
  - eapply issues_no_write; [| apply (login_issues body ans)];
      intros q Hq; simpl in Hq; subst q; reflexivity.
  - eapply issues_no_write; [| apply (trips_issues answer)];
      intros q Hq; simpl in Hq; subst q; reflexivity.
  - eapply issues_no_write; [| apply (trip_issues tripId answer)];
      intros q Hq; simpl in Hq; subst q; reflexivity.
Qed.

Lemma rich_other_events_never_write_witness :
  let evs := [Rich.Connection Scenario.conn_a;
              Rich.PostAuthLogin Accounts.credentials Accounts.wrong_password;
              Rich.GetApiTripsTripId "t1" (Rejected {| message := "fetch failed" |});
              Rich.Disconnect Scenario.conn_a] in
  forallb (λ ev, negb (Traffic.may_write ev)) evs = true ∧
  List.filter Traffic.is_write (queries (Rich.run evs (Rich.start "3000"))) = [].
Proof.
  intros evs. split; [reflexivity|].
  apply (rich_other_events_never_write evs (Rich.start "3000")). reflexivity.
Defined.

(** ** Whole runs of the simple variant *)

Lemma simple_run_app (evs1 evs2 : list Simple.Event) (w : World) :
  Simple.run (evs1 ++ evs2) w = Simple.run evs2 (Simple.run evs1 w).
Proof. revert w. induction evs1 as [|ev evs1 IH]; intros w; simpl; [reflexivity | apply IH]. Qed.

Lemma simple_step_connected (socket : Socket) (data : Simple.PositionData) (w : World) :
  id socket ∈ sockets w →
  Simple.step (Simple.UpdatePosition socket data) w =
  exec (Simple.update_position socket data) w.
Proof.
  intros Hin. unfold Simple.step, exec. simpl. unfold while_connected.
  by rewrite bool_decide_eq_true_2.
Qed.

Lemma simple_stream_sockets (socket : Socket) (samples : list Simple.PositionData) (w : World) :
  id socket ∈ sockets w →
  sockets (Simple.run (Traffic.simple_stream_of socket samples) w) = sockets w.
Proof.
  revert w. induction samples as [|data samples IH]; intros w Hin; simpl; [reflexivity|].
  rewrite simple_step_connected by exact Hin.
  assert (sockets (exec (Simple.update_position socket data) w) = sockets w) as Hsame
    by (apply (simple_update_position_preserves sockets); reflexivity).
  rewrite IH by (rewrite Hsame; exact Hin). exact Hsame.
Qed.

(** An [update_position] event changes the cache object and the console,
    nothing else. *)
Lemma simple_update_event_preserves {X} (part : World → X)
    (socket : Socket) (data : Simple.PositionData) (w : World) :
  (∀ f w, part (set_dataInMemory f w) = part w) →
  (∀ f w, part (set_prototype f w) = part w) →
  (∀ f w, part (set_console f w) = part w) →
  part (Simple.step (Simple.UpdatePosition socket data) w) = part w.
Proof.
  intros Hown Hproto Hconsole.
  apply (preserves_while_connected part socket _
           (simple_update_position_preserves part socket data Hown Hproto Hconsole) w).
Qed.

(** X17.  The only packet the simple variant ever sends is the reset
    notice: after any sequence of events from start-up, every packet
    delivered to any socket is [erro_sistema] with the text
    "Sistema reiniciando, aguarde...". *)
Theorem simple_delivers_only_reset_notices (PORT : string) (evs : list Simple.Event) :
  Forall (λ d, d.2 = Traffic.reset_notice) (delivered (Simple.run evs (Simple.start PORT))).
Proof.
  assert (∀ w, Forall (λ d, d.2 = Traffic.reset_notice) (delivered w) →
               Forall (λ d, d.2 = Traffic.reset_notice) (delivered (Simple.run evs w)))
    as Hrun; [|apply Hrun; constructor].
  induction evs as [|ev evs IH]; intros w Hw; simpl; [exact Hw|].
  apply IH. destruct ev as [socket|socket data|socket| |].
  - exact Hw.
  - by rewrite (simple_update_event_preserves delivered).
  - unfold Simple.step, exec; simpl.
    unfold while_connected. destruct (bool_decide _); exact Hw.
  - exact Hw.
  - unfold Simple.step, exec; simpl. apply Forall_app. split; [exact Hw|].
    apply Forall_fmap, Forall_forall. intros sid _. reflexivity.
Qed.

Lemma simple_step_keeps_entries (u : string) (ev : Simple.Event) (w : World) :
  is_Some (dataInMemory w !! u) → is_Some (dataInMemory (Simple.step ev w) !! u).
Proof.
  intros Hu. destruct ev as [socket|socket data|socket| |]; try exact Hu.
  - unfold Simple.step, Simple.handle. unfold exec at 1. unfold while_connected.
    destruct (bool_decide _); [|exact Hu].
    change (is_Some (dataInMemory (exec (Simple.update_position socket data) w) !! u)).
    destruct (decide (u = Simple.userId data)) as [->|Hne].
    + unfold exec. rewrite simple_update_position_run. unfold assign. simpl.
      destruct (_ && _); simpl; [exact Hu | rewrite lookup_insert_eq; by eexists].
    + by rewrite simple_update_position_other.
  - unfold Simple.step, exec, Simple.handle, while_connected.
    destruct (bool_decide _); exact Hu.
Qed.

(** X18.  The simple variant never removes a cache entry: a user id that
    has an entry keeps one through any sequence of events, disconnects and
    resets included. *)
Theorem simple_cache_entries_persist (u : string) (evs : list Simple.Event) (w : World) :
  is_Some (dataInMemory w !! u) → is_Some (dataInMemory (Simple.run evs w) !! u).
Proof.
  revert w. induction evs as [|ev evs IH]; intros w Hu; simpl; [exact Hu|].
  by apply IH, simple_step_keeps_entries.
Qed.

Lemma simple_cache_entries_persist_witness :
  let w := Simple.run [Simple.Connection Scenario.conn_a;
                       Simple.UpdatePosition Scenario.conn_a Scenario.first]
             (Simple.start "3000") in
  is_Some (dataInMemory w !! "u1") ∧
  is_Some (dataInMemory
             (Simple.run [Simple.Disconnect Scenario.conn_a; Simple.PostApiAdminResetar] w)
           !! "u1").
Proof.
  intros w.
  assert (is_Some (dataInMemory w !! "u1")) as Hu by (eexists; reflexivity).
  split; [exact Hu|].
  apply (simple_cache_entries_persist "u1"
           [Simple.Disconnect Scenario.conn_a; Simple.PostApiAdminResetar] w Hu).
Defined.

(** X19.  Over any sequence of events the simple variant sends exactly one
    HTTP response per HTTP request and none for a socket event, and every
    response it sends from start-up on has status 200. *)
Theorem simple_one_response_per_request (PORT : string) (evs : list Simple.Event) (w : World) :
  length (responses (Simple.run evs w)) =
    length (responses w) + length (List.filter Traffic.simple_http evs) ∧
  Forall (λ r, status r = 200) (responses (Simple.run evs (Simple.start PORT))).
Proof.
  split.
  - revert w. induction evs as [|ev evs IH]; intros w; simpl; [lia|].
    rewrite IH. destruct ev as [socket|socket data|socket| |].
    + simpl. lia.
    + rewrite (simple_update_event_preserves responses) by reflexivity. simpl. lia.
    + unfold Simple.step, exec; simpl.
      unfold while_connected; destruct (bool_decide _); simpl; lia.
    + unfold Simple.step, exec; simpl. rewrite length_app. simpl. lia.
    + unfold Simple.step, exec; simpl. rewrite length_app. simpl. lia.
  - assert (∀ w, Forall (λ r, status r = 200) (responses w) →
                 Forall (λ r, status r = 200) (responses (Simple.run evs w)))
      as Hrun; [|apply Hrun; constructor].
    induction evs as [|ev evs IH]; intros w0 Hw; simpl; [exact Hw|].
    apply IH. destruct ev as [socket|socket data|socket| |].
    + exact Hw.
    + by rewrite (simple_update_event_preserves responses).
    + unfold Simple.step, exec; simpl.
      unfold while_connected; destruct (bool_decide _); exact Hw.
    + unfold Simple.step, exec; simpl.
      apply Forall_app; split; [exact Hw | by repeat constructor].
    + unfold Simple.step, exec; simpl.
      apply Forall_app; split; [exact Hw | by repeat constructor].
Qed.

(** X20.  Last arrival wins over a whole stream.  After a connected socket
    has sent the simple variant any list of samples, of any users other
    than ["__proto__"], the cache entry of a user is [{ lat, lng }] of the
    last sample of that user in the list, a user with no sample in the list
    has the entry it had before, and the cache object has the prototype it
    had before. *)
Theorem simple_stream_keeps_last_sample_of_each_user (socket : Socket)
    (samples : list Simple.PositionData) (u : string) (w : World) :
  id socket ∈ sockets w →
  Forall (λ data, Simple.userId data ≠ "__proto__") samples →
  dataInMemory (Simple.run (Traffic.simple_stream_of socket samples) w) !! u =
    match last (filter (λ data, Simple.userId data = u) samples) with
    | Some data => Some (Simple.position_of data)
    | None => dataInMemory w !! u
    end ∧
  prototype (Simple.run (Traffic.simple_stream_of socket samples) w) = prototype w.
Proof.
  intros Hin. induction samples as [|data samples IH] using rev_ind; intros Hordinary;
    [split; reflexivity|].
  apply Forall_app in Hordinary as [Hsamples Hdata].
  rewrite Forall_singleton in Hdata.
  destruct (IH Hsamples) as [IHown IHproto].
  pose proof (simple_stream_sockets socket samples w Hin) as Hsockets.
  unfold Traffic.simple_stream_of in *.
  rewrite fmap_app, simple_run_app. simpl.
  rewrite simple_step_connected by (rewrite Hsockets; exact Hin).
  destruct (simple_update_position_cache socket data
              (Simple.run (Simple.UpdatePosition socket <$> samples) w) Hdata) as [-> ->].
  split; [|exact IHproto].
  rewrite filter_app, filter_cons, filter_nil.
  destruct (decide (Simple.userId data = u)) as [<-|Hne].
  - rewrite last_snoc. apply lookup_insert_eq.
  - rewrite app_nil_r, lookup_insert_ne by exact Hne. exact IHown.
Qed.

Lemma simple_stream_keeps_last_sample_of_each_user_witness :
  let w := Simple.step (Simple.Connection Scenario.conn_a) (Simple.start "3000") in
  id Scenario.conn_a ∈ sockets w ∧
  Forall (λ data, Simple.userId data ≠ "__proto__")
    [Scenario.first; Scenario.lat91; Scenario.second] ∧
  dataInMemory
    (Simple.run (Traffic.simple_stream_of Scenario.conn_a
                   [Scenario.first; Scenario.lat91; Scenario.second]) w) !! "u1" =
  Some (JObj [("lat", JNum 11%float); ("lng", JNum 21%float)]).
Proof.
  intros w.
  assert (id Scenario.conn_a ∈ sockets w) as Hin
    by (apply elem_of_union_l, elem_of_singleton; reflexivity).
  assert (Forall (λ data, Simple.userId data ≠ "__proto__")
            [Scenario.first; Scenario.lat91; Scenario.second]) as Hordinary
    by (repeat constructor; discriminate).
  split; [exact Hin|]. split; [exact Hordinary|].
  apply (simple_stream_keeps_last_sample_of_each_user Scenario.conn_a
           [Scenario.first; Scenario.lat91; Scenario.second] "u1" w Hin Hordinary).
Defined.

(** X21.  Last arrival wins for every user id but ["__proto__"].  Once the
    simple variant's listener has taken a sample of such a user, then the
    server has gone through any events whatever, then the listener has
    taken a second sample of the same user, the cache entry of that user
    is [{ lat, lng }] of the second sample.  The listener compares no
    timestamps and tests no ranges. *)
Theorem last_arrival_wins (w : World) (socket1 socket2 : Socket)
    (s1 s2 : Simple.PositionData) (between : list Simple.Event) :
  Simple.userId s1 = Simple.userId s2 →
  Simple.userId s2 ≠ "__proto__" →
  dataInMemory
    (exec (Simple.update_position socket2 s2)
       (Simple.run between (exec (Simple.update_position socket1 s1) w)))
    !! Simple.userId s1
  = Some (JObj [("lat", JNum (Simple.lat s2)); ("lng", JNum (Simple.lng s2))]).
Proof.
  intros Hsame Hkey.
  destruct (simple_update_position_cache socket2 s2
              (Simple.run between (exec (Simple.update_position socket1 s1) w)) Hkey)
    as [-> _].
  rewrite Hsame. apply lookup_insert_eq.
Qed.

Lemma last_arrival_wins_witness :
  Simple.userId Scenario.first = Simple.userId Scenario.second ∧
  Simple.userId Scenario.second ≠ "__proto__" ∧
  dataInMemory
    (exec (Simple.update_position Scenario.conn_a Scenario.second)
       (Simple.run [Simple.GetRoot]
          (exec (Simple.update_position Scenario.conn_a Scenario.first) boot)))
    !! "u1"
  = Some (JObj [("lat", JNum 11%float); ("lng", JNum 21%float)]).
Proof.
  split; [reflexivity|].
  assert (Simple.userId Scenario.second ≠ "__proto__") as Hkey by discriminate.
  split; [exact Hkey|].
  apply (last_arrival_wins boot Scenario.conn_a Scenario.conn_a
           Scenario.first Scenario.second [Simple.GetRoot] eq_refl Hkey).
Defined.

(** X22.  The frame of an ingest for every user id but ["__proto__"].  The
    simple variant's listener, given a sample of such a user, leaves the
    cache entry of every other user id as it was, present or absent, and
    leaves the prototype of the cache object as it was: nothing of the
    cache but the entry of the sample's user changes. *)
Theorem update_position_leaves_other_users (w : World) (socket : Socket)
    (data : Simple.PositionData) (v : string) :
  Simple.userId data ≠ "__proto__" →
  v ≠ Simple.userId data →
  dataInMemory (exec (Simple.update_position socket data) w) !! v = dataInMemory w !! v ∧
  prototype (exec (Simple.update_position socket data) w) = prototype w.
Proof.
  intros Hkey Hv.
  split; [by apply simple_update_position_other|].
  apply (simple_update_position_cache socket data w Hkey).
Qed.

Lemma update_position_leaves_other_users_witness :
  Simple.userId Scenario.second ≠ "__proto__" ∧
  "u2" ≠ Simple.userId Scenario.second ∧
  dataInMemory
    (exec (Simple.update_position Scenario.conn_a Scenario.second)
       (set_dataInMemory (λ _, {[ "u2" := JNull ]}) boot)) !! "u2"
  = dataInMemory (set_dataInMemory (λ _, {[ "u2" := JNull ]}) boot) !! "u2".
Proof.
  assert (Simple.userId Scenario.second ≠ "__proto__") as Hkey by discriminate.
  assert ("u2" ≠ Simple.userId Scenario.second) as Hv by discriminate.
  split; [exact Hkey|]. split; [exact Hv|].
  apply (update_position_leaves_other_users _ Scenario.conn_a Scenario.second "u2" Hkey Hv).
Defined.

(** From start-up on no own property is ever named ["__proto__"] and the
    prototype of the cache object is [Object.prototype] or the
    [{ lat, lng }] of a sample, so the name keeps finding the accessor. *)
Lemma simple_run_reaches_accessor (PORT : string) (evs : list Simple.Event) :
  dataInMemory (Simple.run evs (Simple.start PORT)) !! "__proto__" = None ∧
  reaches_accessor (dataInMemory (Simple.run evs (Simple.start PORT)))
    (prototype (Simple.run evs (Simple.start PORT))) = true.
Proof.
  pose (inv := λ w : World,
          dataInMemory w !! "__proto__" = None ∧
          (prototype w = ObjectPrototype ∨
           ∃ data, prototype w = Inherits (Simple.position_of data))).
  assert (∀ w, inv w → reaches_accessor (dataInMemory w) (prototype w) = true) as Hreach.
  { intros w [Hown [Hp|[data Hp]]]; unfold reaches_accessor; rewrite Hown, Hp; reflexivity. }
  assert (∀ w, inv w → inv (Simple.run evs w)) as Hrun.
  { induction evs as [|ev evs IH]; intros w Hw; simpl; [exact Hw|].
    apply IH. destruct ev as [socket|socket data|socket| |]; try exact Hw.
    - unfold Simple.step, Simple.handle. unfold exec at 1. unfold while_connected.
      destruct (bool_decide _); [|exact Hw].
      change (inv (exec (Simple.update_position socket data) w)).
      destruct (decide (Simple.userId data = "__proto__")) as [Hkey|Hkey].
      + destruct (simple_update_position_proto socket data w Hkey (Hreach w Hw)) as [Hown Hp].
        split; [rewrite Hown; apply Hw | right; by exists data].
      + destruct (simple_update_position_cache socket data w Hkey) as [Hown Hp].
        split; [rewrite Hown, lookup_insert_ne by exact Hkey; apply Hw
               | rewrite Hp; apply Hw].
    - unfold Simple.step, exec, Simple.handle, while_connected.
      destruct (bool_decide _); exact Hw. }
  assert (inv (Simple.run evs (Simple.start PORT))) as Hinv
    by (apply Hrun; split; [reflexivity | by left]).
  split; [apply Hinv | by apply Hreach].
Qed.

(** X23.  What a sample of the user id ["__proto__"] does.  After any
    sequence of events from start-up, the simple variant's listener, given
    a sample with that user id, ends normally, creates no cache entry and
    changes none: the own properties of the cache object are what they
    were, none of them is named ["__proto__"], and the sample's
    [{ lat, lng }] becomes the prototype of the cache object. *)
Theorem proto_sample_creates_no_entry (PORT : string) (evs : list Simple.Event)
    (socket : Socket) (data : Simple.PositionData) :
  Simple.userId data = "__proto__" →
  let w := Simple.run evs (Simple.start PORT) in
  outcome (Simple.update_position socket data) w = Normal tt ∧
  dataInMemory (exec (Simple.update_position socket data) w) = dataInMemory w ∧
  dataInMemory (exec (Simple.update_position socket data) w) !! Simple.userId data = None ∧
  prototype (exec (Simple.update_position socket data) w) =
    Inherits (JObj [("lat", JNum (Simple.lat data)); ("lng", JNum (Simple.lng data))]).
Proof.
  intros Hkey w.
  destruct (simple_run_reaches_accessor PORT evs) as [Hnone Hreach].
  destruct (simple_update_position_proto socket data w Hkey Hreach) as [Hown Hp].
  split; [reflexivity|]. split; [exact Hown|]. split; [|exact Hp].
  rewrite Hown, Hkey. exact Hnone.
Qed.

Lemma proto_sample_creates_no_entry_witness :
  let w := Simple.run [Simple.Connection Scenario.conn_a;
                       Simple.UpdatePosition Scenario.conn_a Scenario.first]
             (Simple.start "3000") in
  Simple.userId Scenario.proto_second = "__proto__" ∧
  dataInMemory (exec (Simple.update_position Scenario.conn_a Scenario.proto_second) w) =
    dataInMemory w ∧
  prototype (exec (Simple.update_position Scenario.conn_a Scenario.proto_second) w) =
    Inherits (JObj [("lat", JNum 11%float); ("lng", JNum 21%float)]).
Proof.
  intros w. split; [reflexivity|].
  pose proof (proto_sample_creates_no_entry "3000"
                [Simple.Connection Scenario.conn_a;
                 Simple.UpdatePosition Scenario.conn_a Scenario.first]
                Scenario.conn_a Scenario.proto_second eq_refl) as (_ & Hown & _ & Hp).
  split; [exact Hown | exact Hp].
Defined.
